(** * Serenity/JS: descriptions, the Playwright step reporter, the photographer

    A shallow embedding of the parts of the repository that the
    specification makes checkable statements about:

    - [Description]: the tagged-template description builder [the]
      with [templateToQuestion] and [interpolate];
    - [Abilities]: [BrowseTheWeb.as], the ability lookup on an actor;
    - [Photography]: [Photographer.takeAPictureOf];
    - [Reporter]: [PlaywrightStepReporter.notifyOf] and the promises it
      leaves behind.

    JavaScript strings are modelled as [string], [Map<string, _>] as
    [gmap string _], arrays as lists.  Code that may throw, reject or touch
    the outside world runs in the monad [M W] below: a computation reads and
    writes a world [W] and ends in a value or in an [Error]. *)

From Stdlib Require Import String Ascii.
From stdpp Require Import base gmap strings list pretty.

Local Open Scope string_scope.
Local Open Scope list_scope.

(** ** Errors and effects *)

(** The JavaScript errors that the modelled code can raise or pass on. *)
Inductive Error : Type :=
| TypeError (message : string)
| AbilityNotFound (actorName capability : string)
| OtherError (message : string).

(** A computation over a world [W]: what a synchronous call or an awaited
    promise does.  [inl e] is a throw or a rejection; the world it leaves
    behind is kept, as the effects that happened before a throw stay. *)
Definition M (W A : Type) : Type := W -> (Error + A) * W.

Definition ret {W A : Type} (a : A) : M W A := fun w => (inr a, w).

Definition throw {W A : Type} (e : Error) : M W A := fun w => (inl e, w).

Definition bind {W A B : Type} (m : M W A) (k : A -> M W B) : M W B :=
  fun w =>
    match m w with
    | (inr a, w') => k a w'
    | (inl e, w') => (inl e, w')
    end.

Notation "x <- c1 ;; c2" := (bind c1 (fun x => c2))
  (at level 100, c1 at next level, right associativity).
Notation "c1 ;;; c2" := (bind c1 (fun _ => c2))
  (at level 100, right associativity).

Definition gets {W A : Type} (f : W -> A) : M W A := fun w => (inr (f w), w).

Definition modify {W : Type} (f : W -> W) : M W unit := fun w => (inr tt, f w).

(** Modelled from the spec: [asyncMap] of [../../io] is not among the
    sources.  Placeholders are resolved one after another, each one awaited
    before the next (sections 4.3 and 5: sequential, suspending only at
    question resolution), the results kept in the order of the items; the
    first rejection rejects the whole. *)
Fixpoint asyncMap {W A B : Type} (items : list A) (f : A -> M W B) : M W (list B) :=
  match items with
  | [] => ret []
  | item :: rest =>
      r <- f item ;;
      rs <- asyncMap rest f ;;
      ret (r :: rs)
  end.

(** ** Actors and abilities *)

Module Abilities.

(** An ability instance held by an actor.  Of the abstract class
    [BrowseTheWeb] only [takeScreenshot] is used by the modelled code; the
    capability type an instance belongs to is [abilityType]. *)
Record Ability (W : Type) : Type := mkAbility {
  abilityType : string;
  takeScreenshot : M W string;
}.
Arguments mkAbility {W} _ _.
Arguments abilityType {W} _.
Arguments takeScreenshot {W} _.

(** An actor: a name and at most one ability per capability type. *)
Record Actor (W : Type) : Type := mkActor {
  name : string;
  abilities : gmap string (Ability W);
}.
Arguments mkActor {W} _ _.
Arguments name {W} _.
Arguments abilities {W} _.

(** Modelled from the spec: [Actor.whoCan] is not among the sources.
    Section 4.1: one ability per capability type is registered, a second
    ability of the same capability type overwrites the first. *)
Definition whoCan {W : Type} (abilitiesToAdd : list (Ability W)) (actor : Actor W) : Actor W :=
  mkActor (name actor)
    (foldl (fun m a => <[abilityType a := a]> m) (abilities actor) abilitiesToAdd).

(** Modelled from the spec: [Actor.abilityTo] is not among the sources.
    Section 4.1: it returns the registered instance or fails with an
    "ability not found" error naming the missing capability and the actor's
    name. *)
Definition abilityTo {W : Type} (actor : Actor W) (capability : string) : Error + Ability W :=
  match abilities actor !! capability with
  | Some ability => inr ability
  | None => inl (AbilityNotFound (name actor) capability)
  end.

(** The capability type of the class [BrowseTheWeb]. *)
Definition BrowseTheWeb : string := "BrowseTheWeb".

(** [BrowseTheWeb.as]: [return actor.abilityTo(BrowseTheWeb)]. *)
Definition BrowseTheWeb_as {W : Type} (actor : Actor W) : Error + Ability W :=
  abilityTo actor BrowseTheWeb.

End Abilities.

(** ** Descriptions built from template literals *)

Module Description.
Import Abilities.

(** The values a placeholder can resolve to, as far as the formatting of a
    description tells them apart. *)
#[warnings="-register-all"] Inductive Value : Type :=
| VString (s : string)
| VNumber (n : Z)
| VObject (fields : list (string * Value))
| VCustom (toString : string)
| VMasked (secret : string).

(** [DescriptionFormattingOptions] reaches [the] as a plain object. *)
Definition DescriptionFormattingOptions : Type := list (string * Value).

(** A placeholder of a template: an instance of [Describable] (a question,
    an activity), or any other [Answerable], a value or a promise of one. *)
Inductive Placeholder (W : Type) : Type :=
| Describable (describedBy : Actor W -> M W string)
| Now (value : Value)
| Promised (settles : Error + Value).
Arguments Describable {W} _.
Arguments Now {W} _.
Arguments Promised {W} _.

(** What [Question.about(description, body)] builds: [description] is what
    [toString()] gives, [body] runs when an actor answers the question. *)
Record QuestionAdapter (W : Type) : Type := about {
  description : string;
  body : Actor W -> M W string;
}.
Arguments about {W} _ _.
Arguments description {W} _.
Arguments body {W} _.

(** Modelled from the spec: [Actor.answer] is not among the sources.
    Section 4.3: a question is a function of an actor to a value; an
    actor answers it by running it in their own context. *)
Definition answer {W : Type} (actor : Actor W) (question : QuestionAdapter W) : M W string :=
  body question actor.

(** The first argument of a call of [the]: the strings of a template
    literal, or any other value. *)
Inductive Arg (W : Type) : Type :=
| Templates (strings : list string)
| Other (value : Placeholder W).
Arguments Templates {W} _.
Arguments Other {W} _.

(** Modelled from the spec: [ValueInspector.isPlainObject] is not among the
    sources.  A plain object is an object literal: neither an array (so not
    the strings of a template literal), nor an instance of a class, nor a
    promise, nor a primitive. *)
Definition plainObject {W : Type} (arg : Arg W) : option (list (string * Value)) :=
  match arg with
  | Other (Now (VObject fields)) => Some fields
  | _ => None
  end.

Definition isPlainObject {W : Type} (arg : Arg W) : bool :=
  match plainObject arg with
  | Some _ => true
  | None => false
  end.

(** What a call of [the] gives back: a template tag function (the options
    form), a question (the direct form), or a [TypeError] when the first
    argument is neither a plain object nor an array, which the declared
    overloads exclude. *)
Inductive TheResult (W : Type) : Type :=
| TagFunction (tag : list string -> list (Placeholder W) -> QuestionAdapter W)
| Built (question : QuestionAdapter W)
| Threw (error : Error).
Arguments TagFunction {W} _.
Arguments Built {W} _.
Arguments Threw {W} _.

(** [interpolate]: [templates.flatMap((template, i) => i < parameters.length
    ? [ template, parameters[i] ] : [ template ])], before the [join]. *)
Definition segments (templates parameters : list string) : list string :=
  concat (imap (fun i template =>
                  if (i <? length parameters)%nat
                  then [ template; default "" (parameters !! i) ]
                  else [ template ])
               templates).

(** [interpolate]: the segments joined with the empty separator. *)
Definition interpolate (templates parameters : list string) : string :=
  String.concat "" (segments templates parameters).

Section TemplateToQuestion.

Context {W : Type}.

(** [Question.formattedValue(options).of(parameter)], which is not among the
    sources, is a parameter of the development. *)
Variable formattedValue :
  option DescriptionFormattingOptions -> Placeholder W -> QuestionAdapter W.

(** The mapping function that [templateToQuestion] hands to [asyncMap]. *)
Definition describeParameter (options : option DescriptionFormattingOptions)
    (actor : Actor W) (parameter : Placeholder W) : M W string :=
  match parameter with
  | Describable describedBy => describedBy actor
  | _ => answer actor (formattedValue options parameter)
  end.

(** [templateToQuestion]. *)
Definition templateToQuestion (templates : list string) (parameters : list (Placeholder W))
    (options : option DescriptionFormattingOptions) : QuestionAdapter W :=
  let description :=
    interpolate templates
      (map (fun parameter => description (formattedValue options parameter)) parameters) in
  about description (fun actor =>
    descriptions <- asyncMap parameters (describeParameter options actor) ;;
    ret (interpolate templates descriptions)).

(** [the]: [args[0]] is [first], [args.slice(1)] is [rest]. *)
Definition the (first : Arg W) (rest : list (Placeholder W)) : TheResult W :=
  if isPlainObject first
  then TagFunction (fun templates parameters =>
         templateToQuestion templates parameters (plainObject first))
  else match first with
       | Templates templates => Built (templateToQuestion templates rest None)
       | Other _ => Threw (TypeError "templates.flatMap is not a function")
       end.

(** [question] is a question built by [the] from [templates] and
    [parameters]: by the direct form, or by the tag function that the
    options form gives; [options] are the formatting options it was built
    with. *)
Inductive builtByThe (templates : list string) (parameters : list (Placeholder W))
  : option DescriptionFormattingOptions -> QuestionAdapter W -> Prop :=
| builtDirectly (question : QuestionAdapter W) :
    the (Templates templates) parameters = Built question ->
    builtByThe templates parameters None question
| builtWithOptions (first : Arg W) (rest : list (Placeholder W))
    (tag : list string -> list (Placeholder W) -> QuestionAdapter W) :
    the first rest = TagFunction tag ->
    builtByThe templates parameters (plainObject first) (tag templates parameters).

End TemplateToQuestion.

(** The description as section 8 of the spec words it: the literal segments
    in their order, the resolved text of the placeholders interposed in
    theirs. *)
Fixpoint interposed (templates descriptions : list string) : string :=
  match templates, descriptions with
  | [], _ => ""
  | template :: templates', [] => template +:+ interposed templates' []
  | template :: templates', d :: descriptions' =>
      template +:+ d +:+ interposed templates' descriptions'
  end.

(** The double quote that surrounds a formatted string. *)
Definition quote : string := String (ascii_of_nat 34) EmptyString.

(** Modelled from the spec: the default value-formatting strategy behind
    [Question.formattedValue] is not among the sources.  Section 4.3: quote
    strings, JSON-render plain objects, call a custom string conversion if
    present, mask values flagged as sensitive to a fixed redaction marker;
    the marker and the rendering of an object are those of the examples in
    the documentation of [the]. *)
Fixpoint stringified (value : Value) : string :=
  match value with
  | VString s => quote +:+ s +:+ quote
  | VNumber n => pretty n
  | VObject fields =>
      "{ " +:+
      String.concat ", "
        (map (fun field => match field with
                           | (key, v) => key +:+ ": " +:+ stringified v
                           end) fields) +:+
      " }"
  | VCustom toString => toString
  | VMasked _ => "[a masked value]"
  end.

Section FormattedValue.

Context {W : Type}.

(** How a description is cut to the [maxLength] of the options is not
    among the sources and is a parameter. *)
Variable trimmed : DescriptionFormattingOptions -> string -> string.

(** Modelled from the spec: the formatting strategy with the options
    applied; by default the output is displayed in full. *)
Definition formatted (options : option DescriptionFormattingOptions) (value : Value) : string :=
  match options with
  | Some o => trimmed o (stringified value)
  | None => stringified value
  end.

(** Modelled from the spec: resolving a parameter as an [Answerable], a
    pending value being awaited.  The body of [templateToQuestion] never
    asks this of a [Describable]; there it stands for what describes it. *)
Definition answerable (parameter : Placeholder W) (actor : Actor W) : M W Value :=
  match parameter with
  | Describable describedBy => s <- describedBy actor ;; ret (VCustom s)
  | Now value => ret value
  | Promised (inr value) => ret value
  | Promised (inl reason) => throw reason
  end.

(** Modelled from the spec: [Question.formattedValue(options).of(parameter)]
    resolves the parameter and applies the default formatting strategy; by
    default the output is displayed in full. *)
Definition specFormattedValue (options : option DescriptionFormattingOptions)
    (parameter : Placeholder W) : QuestionAdapter W :=
  about "formatted value" (fun actor =>
    value <- answerable parameter actor ;;
    ret (formatted options value)).

(** What a placeholder contributes to the description resolved for
    [actor], as section 4.3 of the spec rules it. *)
Inductive contribution (options : option DescriptionFormattingOptions) (actor : Actor W)
  : Placeholder W -> string -> Prop :=
| describesItself (describedBy : Actor W -> M W string) (d : string) (w1 w2 : W) :
    describedBy actor w1 = (inr d, w2) ->
    contribution options actor (Describable describedBy) d
| formatsValue (value : Value) :
    contribution options actor (Now value) (formatted options value)
| formatsAwaited (value : Value) :
    contribution options actor (Promised (inr value)) (formatted options value).

End FormattedValue.

End Description.

(** ** The photographer *)

Module Photography.
Import Abilities.

(** The outlet, an external collaborator that persists a picture and
    answers with the path it stored it under. *)
Record Outlet (W : Type) : Type := mkOutlet {
  sendPicture : string -> string -> M W string;
}.
Arguments mkOutlet {W} _.
Arguments sendPicture {W} _ _ _.

(** [new Screenshot(step, path)]. *)
Record Screenshot (Step : Type) : Type := mkScreenshot {
  step : Step;
  picture : string;
}.
Arguments mkScreenshot {Step} _ _.
Arguments step {Step} _.
Arguments picture {Step} _.

(** [class Photographer], constructed with an outlet. *)
Record Photographer (W : Type) : Type := mkPhotographer {
  outlet : Outlet W;
}.
Arguments mkPhotographer {W} _.
Arguments outlet {W} _.

Section TakeAPicture.

Context {W Step : Type}.

(** [Md5.hashStr] of the library ts-md5. *)
Variable hashStr : string -> string.

Definition filenameFor (data : string) : string := hashStr data +:+ ".png".

Definition saveScreenshot (this : Photographer W) (data : string) : M W string :=
  sendPicture (outlet this) (filenameFor data) data.

(** [Photographer.takeAPictureOf].  A missing ability makes
    [BrowseTheWeb.as] throw before any promise exists. *)
Definition takeAPictureOf (this : Photographer W) (actor : Actor W) (step : Step)
    : M W (Screenshot Step) :=
  match BrowseTheWeb_as actor with
  | inl e => throw e
  | inr browser =>
      data <- takeScreenshot browser ;;
      path <- saveScreenshot this data ;;
      ret (mkScreenshot step path)
  end.

End TakeAPicture.

(** An outlet that keeps the pictures in a directory: the world is the
    content of the directory, the answer is the path of the file. *)
Definition directoryOutlet (directory : string) : Outlet (gmap string string) :=
  mkOutlet (fun filename data files =>
              (inr (directory +:+ "/" +:+ filename), <[filename := data]> files)).

(** A browser whose screenshot is always the same payload. *)
Definition stillBrowser {W : Type} (data : string) : Ability W :=
  mkAbility BrowseTheWeb (ret data).

End Photography.

(** ** The Playwright step reporter *)

Module Reporter.

(** The [value] of a [CorrelationId], the key of the [steps] map. *)
Definition CorrelationId : Type := string.

Record FileSystemLocation : Type := mkFileSystemLocation {
  path : string;
  line : option nat;
  column : option nat;
}.

Record ActivityDetails : Type := mkActivityDetails {
  name : string;
  location : option FileSystemLocation;
}.

(** The outcome of an activity; [ProblemIndication] is the superclass of
    every outcome that carries an error. *)
Inductive Outcome : Type :=
| ExecutionSuccessful
| ExecutionSkipped
| ProblemIndication (error : Error).

Inductive Artifact : Type :=
| Photo (base64EncodedValue : string)
| OtherArtifact (base64EncodedValue : string).

Inductive Tag : Type :=
| mkTag (type name : string).

(** The domain events that [notifyOf] tells apart by [instanceof]; every
    other event is an [OtherEvent].  A constructor stands for the instances
    of the class that the reporter imports under that name.  All classes but
    one come from [@serenity-js/core/lib/events]; [SceneTagged] is imported
    from [@serenity-js/core/src/events], another module, so it is another
    class than the [SceneTagged] of [lib/events]: an instance of that one
    fails every [instanceof] test of [notifyOf] and is an [OtherEvent]. *)
Inductive DomainEvent : Type :=
| TaskStarts (activityId : CorrelationId) (details : ActivityDetails)
| TaskFinished (activityId : CorrelationId) (details : ActivityDetails) (outcome : Outcome)
| InteractionStarts (activityId : CorrelationId) (details : ActivityDetails)
| InteractionFinished (activityId : CorrelationId) (details : ActivityDetails) (outcome : Outcome)
| AsyncOperationAttempted (name description : string) (correlationId : CorrelationId) (timestamp : nat)
| AsyncOperationCompleted (correlationId : CorrelationId) (timestamp : nat)
| AsyncOperationFailed (error : Error) (correlationId : CorrelationId) (timestamp : nat)
| AsyncOperationAborted (correlationId : CorrelationId) (timestamp : nat)
| ActivityRelatedArtifactGenerated (activityId : CorrelationId) (name : string)
    (artifact : Artifact) (timestamp : nat)
| SceneTagged (tag : Tag)
| OtherEvent (label : string).

(** Playwright's [Location]. *)
Inductive Location : Type :=
| mkLocation (file : string) (line column : option nat).

(** The argument of [TestStepInternal.complete]. *)
Record StepResult : Type := mkStepResult {
  error : option Error;
}.

(** Playwright's [TestStepInternal].  [completed] holds the results that
    [complete] was called with, oldest first. *)
Record TestStepInternal : Type := mkStep {
  stepLocation : option Location;
  category : string;
  title : string;
  canHaveChildren : bool;
  forceNoParent : bool;
  completed : list StepResult;
}.

Inductive Attachment : Type :=
| mkAttachment (name body contentType : string).

Inductive Annotation : Type :=
| mkAnnotation (type description : string).

(** Playwright's [TestInfo], as far as the reporter drives it: the steps
    made by [_addStep] (a step is referred to by its position), the calls of
    [attach] and the [annotations]. *)
Record TestInfo : Type := mkTestInfo {
  added : list TestStepInternal;
  attached : list Attachment;
  annotations : list Annotation;
}.

(** The stage as the reporter uses it: a clock, and the events that the
    reporter announced to it, oldest first. *)
Record Stage : Type := mkStage {
  currentTime : nat;
  announced : list DomainEvent;
}.

Inductive Settlement : Type :=
| Fulfilled
| Rejected (reason : Error).

(** The promise that [testInfo.attach(...).then(...)] leaves behind:
    [awaited] is the correlation id its fulfilment handler announces,
    [settled] is how the attachment ended, if it has. *)
Record AttachPromise : Type := mkPromise {
  awaited : CorrelationId;
  settled : option Settlement;
}.

(** The reporter and what it reaches: its [steps] map (a step is shared
    with [testInfo], so the map holds references), [testInfo], the [stage]
    it was assigned to, the number of correlation ids created so far, the
    promises of its attachments, and the rejections nothing handled. *)
Record State : Type := mkState {
  steps : gmap string nat;
  testInfo : TestInfo;
  stage : option Stage;
  created : nat;
  promises : list AttachPromise;
  unhandled : list Error;
}.

Definition withSteps (f : gmap string nat -> gmap string nat) (s : State) : State :=
  mkState (f (steps s)) (testInfo s) (stage s) (created s) (promises s) (unhandled s).

Definition withTestInfo (f : TestInfo -> TestInfo) (s : State) : State :=
  mkState (steps s) (f (testInfo s)) (stage s) (created s) (promises s) (unhandled s).

Definition withStage (f : option Stage -> option Stage) (s : State) : State :=
  mkState (steps s) (testInfo s) (f (stage s)) (created s) (promises s) (unhandled s).

Definition withCreated (f : nat -> nat) (s : State) : State :=
  mkState (steps s) (testInfo s) (stage s) (f (created s)) (promises s) (unhandled s).

Definition withPromises (f : list AttachPromise -> list AttachPromise) (s : State) : State :=
  mkState (steps s) (testInfo s) (stage s) (created s) (f (promises s)) (unhandled s).

Definition withUnhandled (f : list Error -> list Error) (s : State) : State :=
  mkState (steps s) (testInfo s) (stage s) (created s) (promises s) (f (unhandled s)).

(** [new PlaywrightStepReporter(testInfo, stage)], in a world where no
    correlation id has been created yet. *)
Definition newReporter (testInfo : TestInfo) (stage : option Stage) : State :=
  mkState ∅ testInfo stage 0 [] [].

(** [assignedTo]. *)
Definition assignedTo (stage : Stage) (this : State) : State :=
  withStage (fun _ => Some stage) this.

(** [Photographer.name] and [this.constructor.name]. *)
Definition Photographer_name : string := "Photographer".
Definition constructor_name : string := "PlaywrightStepReporter".

(** Modelled from the spec: [CorrelationId.create] is not among the
    sources.  Section 3: an opaque string-backed value, generated fresh per
    invocation and never reused; here the decimal numeral of a counter. *)
Definition idOf (n : nat) : CorrelationId := pretty n.

Definition CorrelationId_create : M State CorrelationId :=
  fun s => (inr (idOf (created s)), withCreated S s).

(** [this.steps.set], [this.steps.has], [this.steps.get]. *)
Definition steps_set (key : string) (step : nat) : M State unit :=
  modify (withSteps (fun m => <[key := step]> m)).

Definition steps_has (key : string) : M State bool :=
  gets (fun s => match steps s !! key with Some _ => true | None => false end).

Definition steps_get (key : string) : M State (option nat) :=
  gets (fun s => steps s !! key).

(** What [complete(result)] does to a step: the step takes note of the
    result. *)
Definition completeStep (result : StepResult) (st : TestStepInternal) : TestStepInternal :=
  mkStep (stepLocation st) (category st) (title st) (canHaveChildren st) (forceNoParent st)
    (completed st ++ [result]).

(** [step.complete(result)] on what [this.steps.get] gave: a [TypeError]
    when that is [undefined]. *)
Definition complete (step : option nat) (result : StepResult) : M State unit :=
  match step with
  | Some ref =>
      modify (withTestInfo (fun info =>
        mkTestInfo (alter (completeStep result) ref (added info))
          (attached info) (annotations info)))
  | None => throw (TypeError "Cannot read properties of undefined (reading 'complete')")
  end.

(** [this.stage], about to be used: a [TypeError] when it is [undefined]. *)
Definition this_stage : M State Stage :=
  fun s =>
    match stage s with
    | Some stage => (inr stage, s)
    | None => (inl (TypeError "Cannot read properties of undefined (reading 'announce')"), s)
    end.

(** [this.stage.announce(event)]: the stage takes note of the event.  That
    the stage then delivers the event to its crew, the reporter among them,
    is the business of the stage. *)
Definition announce (event : DomainEvent) : M State unit :=
  modify (withStage (fun stage =>
    match stage with
    | Some st => Some (mkStage (currentTime st) (announced st ++ [event]))
    | None => None
    end)).

(** [createStep]: [_addStep] makes the step and [testInfo] keeps it. *)
Definition createStep (activityDetails : ActivityDetails) (type : string) : M State nat :=
  fun s =>
    let step :=
      mkStep
        (match location activityDetails with
         | Some l => Some (mkLocation (path l) (line l) (column l))
         | None => None
         end)
        ("serenity-js:" +:+ type)
        (name activityDetails)
        true
        false
        [] in
    (inr (length (added (testInfo s))),
     withTestInfo (fun info =>
       mkTestInfo (added info ++ [step]) (attached info) (annotations info)) s).

(** [this.testInfo.attach(name, { body, contentType }).then(() => ...)]:
    [testInfo] takes note of the call (the body in its base64 form), and a
    promise is left whose fulfilment handler announces the completion of
    [id]. *)
Definition attach_then (name body contentType : string) (id : CorrelationId) : M State unit :=
  modify (fun s =>
    withPromises (fun ps => ps ++ [mkPromise id None])
      (withTestInfo (fun info =>
         mkTestInfo (added info) (attached info ++ [mkAttachment name body contentType])
           (annotations info)) s)).

Section NotifyOf.

(** [Path.from(require.resolve('@serenity-js/web'))], fixed when the module
    is loaded. *)
Variable genericPathToPhotographer : string.

(** [notifyOf].  An event is an instance of one class, so at most one of the
    conditions of the source holds, and the cases below are those
    conditions in the order of the source. *)
Definition notifyOf (event : DomainEvent) : M State unit :=
  match event with
  | TaskStarts activityId details =>
      step <- createStep details "task" ;;
      steps_set activityId step
  | InteractionStarts activityId details =>
      step <- createStep details "interaction" ;;
      steps_set activityId step
  | AsyncOperationAttempted name description correlationId _ =>
      if String.prefix Photographer_name name
      then
        step <- createStep
                  (mkActivityDetails
                     (Photographer_name +:+ ": " +:+ description)
                     (Some (mkFileSystemLocation genericPathToPhotographer None None)))
                  "crew" ;;
        steps_set correlationId step
      else ret tt
  | AsyncOperationCompleted correlationId _
  | AsyncOperationAborted correlationId _ =>
      known <- steps_has correlationId ;;
      if known
      then step <- steps_get correlationId ;; complete step (mkStepResult None)
      else ret tt
  | AsyncOperationFailed error correlationId _ =>
      known <- steps_has correlationId ;;
      if known
      then step <- steps_get correlationId ;; complete step (mkStepResult (Some error))
      else ret tt
  | InteractionFinished activityId _ outcome
  | TaskFinished activityId _ outcome =>
      match outcome with
      | ProblemIndication error =>
          step <- steps_get activityId ;; complete step (mkStepResult (Some error))
      | _ =>
          step <- steps_get activityId ;; complete step (mkStepResult None)
      end
  | ActivityRelatedArtifactGenerated _ name (Photo base64EncodedValue) _ =>
      id <- CorrelationId_create ;;
      stage <- this_stage ;;
      announce (AsyncOperationAttempted
                  constructor_name
                  ("Attaching screenshot of '" +:+ name +:+ "'...")
                  id
                  (currentTime stage)) ;;;
      attach_then name base64EncodedValue "image/png" id
  | ActivityRelatedArtifactGenerated _ _ (OtherArtifact _) _ => ret tt
  | SceneTagged (mkTag type name) =>
      modify (withTestInfo (fun info =>
        mkTestInfo (added info) (attached info)
          (annotations info ++ [mkAnnotation type name])))
  | OtherEvent _ => ret tt
  end.

End NotifyOf.

(** The fulfilment handler of an attachment:
    [this.stage.announce(new AsyncOperationCompleted(id, this.stage.currentTime()))]. *)
Definition onFulfilled (id : CorrelationId) : M State unit :=
  stage <- this_stage ;;
  announce (AsyncOperationCompleted id (currentTime stage)).

(** The attachment behind promise number [promise] ends.  A promise
    settles once.  When it is fulfilled its handler runs; when it is
    rejected there is no handler to run, and the rejection stays unhandled,
    as does an error thrown by the handler. *)
Definition settle (promise : nat) (outcome : Settlement) (s : State) : State :=
  match promises s !! promise with
  | Some (mkPromise id None) =>
      let s1 := withPromises (fun ps => <[promise := mkPromise id (Some outcome)]> ps) s in
      match outcome with
      | Fulfilled =>
          match onFulfilled id s1 with
          | (inr _, s2) => s2
          | (inl e, s2) => withUnhandled (fun es => es ++ [e]) s2
          end
      | Rejected reason => withUnhandled (fun es => es ++ [reason]) s1
      end
  | _ => s
  end.

(** The stage's clock moves on. *)
Definition tick (s : State) : State :=
  withStage (fun stage =>
    match stage with
    | Some st => Some (mkStage (S (currentTime st)) (announced st))
    | None => None
    end) s.

(** What can happen to a reporter once it is set up: an event is delivered
    to [notifyOf], an attachment ends, time passes. *)
Inductive Action : Type :=
| Notify (event : DomainEvent)
| Settle (promise : nat) (outcome : Settlement)
| Tick.

Section Run.

Variable genericPathToPhotographer : string.

Definition step (action : Action) (s : State) : State :=
  match action with
  | Notify event => snd (notifyOf genericPathToPhotographer event s)
  | Settle promise outcome => settle promise outcome s
  | Tick => tick s
  end.

(** The actions of a run, oldest first.  What [notifyOf] did before it
    threw stays done. *)
Definition run (actions : list Action) (s : State) : State :=
  foldl (fun s action => step action s) s actions.

End Run.

(** The events announced to the stage so far. *)
Definition announcements (s : State) : list DomainEvent :=
  match stage s with
  | Some st => announced st
  | None => []
  end.

(** The ids of the completions, and of the failures, among some events. *)
Definition completedIds (events : list DomainEvent) : list CorrelationId :=
  omap (fun e => match e with AsyncOperationCompleted id _ => Some id | _ => None end) events.

Definition failedIds (events : list DomainEvent) : list CorrelationId :=
  omap (fun e => match e with AsyncOperationFailed _ id _ => Some id | _ => None end) events.

Definition attemptedIds (events : list DomainEvent) : list CorrelationId :=
  omap (fun e => match e with AsyncOperationAttempted _ _ id _ => Some id | _ => None end) events.

(** The terminal events, with the id they close. *)
Definition terminalId (event : DomainEvent) : option CorrelationId :=
  match event with
  | AsyncOperationCompleted id _ => Some id
  | AsyncOperationAborted id _ => Some id
  | AsyncOperationFailed _ id _ => Some id
  | InteractionFinished id _ _ => Some id
  | TaskFinished id _ _ => Some id
  | _ => None
  end.

(** The events that put a record into the [steps] map, with its key. *)
Definition startedId (event : DomainEvent) : option CorrelationId :=
  match event with
  | TaskStarts id _ => Some id
  | InteractionStarts id _ => Some id
  | AsyncOperationAttempted name _ id _ =>
      if String.prefix Photographer_name name then Some id else None
  | _ => None
  end.

(** The result that a terminal event completes its step with. *)
Definition terminalResult (event : DomainEvent) : StepResult :=
  match event with
  | AsyncOperationFailed error _ _ => mkStepResult (Some error)
  | InteractionFinished _ _ (ProblemIndication error) => mkStepResult (Some error)
  | TaskFinished _ _ (ProblemIndication error) => mkStepResult (Some error)
  | _ => mkStepResult None
  end.

(** The ids whose attachment was fulfilled, among some promises. *)
Definition fulfilledIds (ps : list AttachPromise) : list CorrelationId :=
  omap (fun p => match settled p with Some Fulfilled => Some (awaited p) | _ => None end) ps.

(** How often an id occurs among some ids. *)
Definition occurrences (id : CorrelationId) (ids : list CorrelationId) : nat :=
  length (filter (fun x => x = id) ids).

(** A reporter set up for a test run: made for a stage that nothing has
    been announced to yet. *)
Definition setUp (testInfo : TestInfo) (now : nat) : State :=
  newReporter testInfo (Some (mkStage now [])).

(** What holds of a reporter at any moment of a run: it has its stage; one
    promise was left per correlation id created, in the order of creation;
    the attempts announced are those of the promises; the completions
    announced are those of the fulfilled promises; no failure was announced. *)
Record consistent (s : State) : Prop := mkConsistent {
  has_stage : is_Some (stage s);
  ids_created : map awaited (promises s) = map idOf (seq 0 (created s));
  attempts_announced : attemptedIds (announcements s) = map awaited (promises s);
  completions_announced :
    forall id, occurrences id (completedIds (announcements s)) =
               occurrences id (fulfilledIds (promises s));
  no_failure_announced : failedIds (announcements s) = [];
}.

(** What one action can do to the announcements, the promises and the
    correlation ids: nothing; announce an attempt under a new id and leave
    its promise; fulfil a pending promise and announce its completion; or
    reject a pending promise and announce nothing. *)
Inductive effect (s s' : State) : Prop :=
| quiet :
    announcements s' = announcements s ->
    promises s' = promises s ->
    created s' = created s ->
    effect s s'
| attempts (description : string) (now : nat) :
    announcements s' =
      announcements s ++
      [ AsyncOperationAttempted constructor_name description (idOf (created s)) now ] ->
    promises s' = promises s ++ [ mkPromise (idOf (created s)) None ] ->
    created s' = S (created s) ->
    effect s s'
| fulfils (promise : nat) (id : string) (now : nat) :
    promises s !! promise = Some (mkPromise id None) ->
    announcements s' = announcements s ++ [ AsyncOperationCompleted id now ] ->
    promises s' = <[promise := mkPromise id (Some Fulfilled)]> (promises s) ->
    created s' = created s ->
    effect s s'
| rejects (promise : nat) (id : string) (reason : Error) :
    promises s !! promise = Some (mkPromise id None) ->
    announcements s' = announcements s ->
    promises s' = <[promise := mkPromise id (Some (Rejected reason))]> (promises s) ->
    created s' = created s ->
    effect s s'.

(** The sentence of section 4.4 of the spec, read on [notifyOf]: the record
    under a correlation id is removed upon the matching terminal event. *)
Definition removedOnTerminal (genericPathToPhotographer : string) : Prop :=
  forall (s : State) (event : DomainEvent) (id : string),
    terminalId event = Some id ->
    is_Some (steps s !! id) ->
    steps (snd (notifyOf genericPathToPhotographer event s)) !! id = None.

End Reporter.

(** ** The books of the reporter *)

(** What [notifyOf] keeps in the [steps] map, in [testInfo] and on the
    stage, named so that runs of the reporter can be talked about. *)
Module Bookkeeping.
Import Reporter.

(** The step that [createStep] has [_addStep] make. *)
Definition stepFor (activityDetails : ActivityDetails) (type : string) : TestStepInternal :=
  mkStep
    (match location activityDetails with
     | Some l => Some (mkLocation (path l) (line l) (column l))
     | None => None
     end)
    ("serenity-js:" +:+ type)
    (name activityDetails)
    true
    false
    [].

(** The step that an event makes [notifyOf] create, if it does. *)
Definition startedStep (genericPathToPhotographer : string) (event : DomainEvent)
    : option TestStepInternal :=
  match event with
  | TaskStarts _ details => Some (stepFor details "task")
  | InteractionStarts _ details => Some (stepFor details "interaction")
  | AsyncOperationAttempted name description _ _ =>
      if String.prefix Photographer_name name
      then Some (stepFor
                   (mkActivityDetails
                      (Photographer_name +:+ ": " +:+ description)
                      (Some (mkFileSystemLocation genericPathToPhotographer None None)))
                   "crew")
      else None
  | _ => None
  end.

(** The results that the terminal events for [id] among some actions
    carry, oldest first. *)
Definition resultsFor (id : string) (actions : list Action) : list StepResult :=
  omap (fun action =>
          match action with
          | Notify event =>
              if decide (terminalId event = Some id)
              then Some (terminalResult event)
              else None
          | _ => None
          end) actions.

(** [st'] is [st] later on: what describes the step is the same, and the
    results it was completed with have at most grown. *)
Definition grown (st st' : TestStepInternal) : Prop :=
  stepLocation st' = stepLocation st
  /\ category st' = category st
  /\ title st' = title st
  /\ canHaveChildren st' = canHaveChildren st
  /\ forceNoParent st' = forceNoParent st
  /\ exists more, completed st' = completed st ++ more.

(** Every record of the [steps] map refers to a step that [testInfo]
    holds, and no two keys refer to the same step. *)
Record tracked (s : State) : Prop := mkTracked {
  refs_valid :
    forall (id : string) (ref : nat),
      steps s !! id = Some ref -> ref < length (added (testInfo s));
  refs_apart :
    forall (id1 id2 : string) (ref : nat),
      steps s !! id1 = Some ref -> steps s !! id2 = Some ref -> id1 = id2;
}.

(** The events that none of the conditions of [notifyOf] acts upon, at a
    reporter in state [s]. *)
Definition ignores (s : State) (event : DomainEvent) : bool :=
  match event with
  | AsyncOperationAttempted name _ _ _ => negb (String.prefix Photographer_name name)
  | AsyncOperationCompleted id _
  | AsyncOperationAborted id _
  | AsyncOperationFailed _ id _ =>
      match steps s !! id with Some _ => false | None => true end
  | ActivityRelatedArtifactGenerated _ _ (OtherArtifact _) _ => true
  | OtherEvent _ => true
  | _ => false
  end.

(** A [SceneTagged] of [@serenity-js/core/lib/events], the module that the
    other event classes are imported from: for the reporter, which tests
    against the class of [@serenity-js/core/src/events], an event of another
    class, whatever its tag. *)
Definition libSceneTagged (tag : Tag) : DomainEvent := OtherEvent "SceneTagged".

(** The annotation that [notifyOf] pushes for a tag. *)
Definition annotationOf (tag : Tag) : Annotation :=
  match tag with
  | mkTag type name => mkAnnotation type name
  end.

(** The events that the reporter itself announces. *)
Definition own (event : DomainEvent) : Prop :=
  (exists description id now,
      event = AsyncOperationAttempted constructor_name description id now)
  \/ (exists id now, event = AsyncOperationCompleted id now).

(** The description under which the attachment of a picture is announced. *)
Definition announcedAs (attachment : Attachment) : string :=
  match attachment with
  | mkAttachment name _ _ => "Attaching screenshot of '" +:+ name +:+ "'..."
  end.

Definition attemptedDescriptions (events : list DomainEvent) : list string :=
  omap (fun e => match e with AsyncOperationAttempted _ d _ _ => Some d | _ => None end) events.

Definition isPicture (attachment : Attachment) : Prop :=
  match attachment with
  | mkAttachment _ _ contentType => contentType = "image/png"
  end.

(** What one action can do to the map and to the steps: nothing; make a
    step and put it under an id; or complete the step under an id. *)
Inductive booked (s s' : State) : Prop :=
| untouched :
    steps s' = steps s ->
    added (testInfo s') = added (testInfo s) ->
    booked s s'
| opened (id : string) (made : TestStepInternal) :
    steps s' = <[id := length (added (testInfo s))]> (steps s) ->
    added (testInfo s') = added (testInfo s) ++ [ made ] ->
    booked s s'
| closed (id : string) (ref : nat) (result : StepResult) :
    steps s !! id = Some ref ->
    steps s' = steps s ->
    added (testInfo s') = alter (completeStep result) ref (added (testInfo s)) ->
    booked s s'.

End Bookkeeping.

(** ** Scenarios *)

(** Concrete actors, templates and events, used to run the definitions. *)
Module Scenarios.
Import Abilities Description.

(** The world of the description scenarios: how often a question was asked
    to describe itself. *)
Definition Asked : Type := nat.

Definition alice : Actor Asked := mkActor "Alice" ∅.

(** A question about a phone number, described by its subject. *)
Definition phoneNumber : Placeholder Asked :=
  Describable (fun _ => ret "phone number").

(** A question whose description counts how often it was asked for. *)
Definition counting : Placeholder Asked :=
  Describable (fun _ asked => (inr (pretty asked), S asked)).

(** A question that tells whether it was asked for an even number of
    times, and counts two for every time it is asked. *)
Definition parity : Placeholder Asked :=
  Describable (fun _ asked =>
    (inr (if Nat.even asked then "even" else "odd"), S (S asked))).

(** No trimming: every description is displayed in full. *)
Definition inFull : DescriptionFormattingOptions -> string -> string :=
  fun _ text => text.

(** The literal segments of [`#actor dials ${ ... } from ${ ... }`]. *)
Definition dials : list string := [ "#actor dials "; " from "; "" ].

(** A stand-in for [Md5.hashStr] that can be run. *)
Definition lengthHash (data : string) : string := pretty (String.length data).

(** The world of the photographer scenarios: the files of the outlet's
    directory. *)
Definition Files : Type := gmap string string.

Definition bob : Actor Files :=
  mkActor "Bob" {[ BrowseTheWeb := mkAbility BrowseTheWeb (ret "PNG-bytes") ]}.

Definition carol : Actor Files := mkActor "Carol" ∅.

(** Where [@serenity-js/web] was resolved to. *)
Definition webModule : string := "/node_modules/@serenity-js/web/lib/index.js".

Definition noTestInfo : Reporter.TestInfo := Reporter.mkTestInfo [] [] [].

Definition login : Reporter.ActivityDetails := Reporter.mkActivityDetails "Alice logs in" None.

Definition timedOut : Error := OtherError "attachment timed out".

Definition photoTaken : Reporter.DomainEvent :=
  Reporter.ActivityRelatedArtifactGenerated "a1" "Alice logs in" (Reporter.Photo "iVBORw0KGgo=") 3.

Definition maxLength10 : DescriptionFormattingOptions := [ ("maxLength", VNumber 10) ].

End Scenarios.

(** * Properties *)

(** ** The monad and [asyncMap] *)

Section AsyncMapFacts.

Context {W A B : Type}.

Lemma asyncMap_cons (f : A -> M W B) (item : A) (rest : list A) (w : W) :
  asyncMap (item :: rest) f w =
  match f item w with
  | (inr r, w1) =>
      match asyncMap rest f w1 with
      | (inr rs, w2) => (inr (r :: rs), w2)
      | (inl e, w2) => (inl e, w2)
      end
  | (inl e, w1) => (inl e, w1)
  end.
Proof.
  simpl. unfold bind. destruct (f item w) as [[e|r] w1]; [reflexivity|].
  destruct (asyncMap rest f w1) as [[e|rs] w2]; reflexivity.
Qed.

(** Every result of [asyncMap] is the result of the mapping function on the
    item at the same position. *)
Lemma asyncMap_Forall2 (f : A -> M W B) (items : list A) :
  forall (w w' : W) (results : list B),
    asyncMap items f w = (inr results, w') ->
    Forall2 (fun item r => exists w1 w2, f item w1 = (inr r, w2)) items results.
Proof.
  induction items as [|item rest IH]; intros w w' results H.
  - inversion H. constructor.
  - rewrite asyncMap_cons in H.
    destruct (f item w) as [[e|r] w1] eqn:Hf; [discriminate|].
    destruct (asyncMap rest f w1) as [[e|rs] w2] eqn:Hrest; [discriminate|].
    inversion H; subst. constructor; [eauto | eapply IH; eauto].
Qed.

Lemma asyncMap_length (f : A -> M W B) (items : list A) (w w' : W) (results : list B) :
  asyncMap items f w = (inr results, w') -> length results = length items.
Proof.
  intros H. apply asyncMap_Forall2 in H. symmetry. eapply Forall2_length; eauto.
Qed.

(** Two mapping functions that agree on the items give the same map. *)
Lemma asyncMap_ext (f g : A -> M W B) (items : list A) :
  (forall item, item ∈ items -> f item = g item) ->
  asyncMap items f = asyncMap items g.
Proof.
  induction items as [|item rest IH]; intros H; [reflexivity|].
  simpl. rewrite (H item) by (left; reflexivity).
  rewrite IH; [reflexivity|]. intros x Hx. apply H. right. exact Hx.
Qed.

(** A mapping function that leaves the world as it found it gives a map that
    does so too. *)
Lemma asyncMap_read_only (f : A -> M W B) (items : list A) :
  (forall item w, item ∈ items -> snd (f item w) = w) ->
  forall w, snd (asyncMap items f w) = w.
Proof.
  induction items as [|item rest IH]; intros H w; [reflexivity|].
  rewrite asyncMap_cons.
  pose proof (H item w ltac:(left; reflexivity)) as Hw.
  destruct (f item w) as [[e|r] w1]; simpl in Hw; subst w1; [reflexivity|].
  assert (Hrest : snd (asyncMap rest f w) = w).
  { apply IH. intros x w0 Hx. apply H. right. exact Hx. }
  destruct (asyncMap rest f w) as [[e|rs] w2]; simpl in Hrest; subst w2; reflexivity.
Qed.

(** What a mapping function shows of the world: when no item changes what
    [view] shows, and the outcome for an item depends on what [view] shows
    alone, the same holds of the map. *)
Lemma asyncMap_observed {V : Type} (view : W -> V) (f : A -> M W B) (items : list A) :
  (forall item w, item ∈ items -> view (snd (f item w)) = view w) ->
  (forall item w w', item ∈ items -> view w = view w' -> fst (f item w) = fst (f item w')) ->
  forall w w',
    view w = view w' ->
    fst (asyncMap items f w) = fst (asyncMap items f w')
    /\ view (snd (asyncMap items f w)) = view w.
Proof.
  induction items as [|item rest IH]; intros Hkeeps Hreads w w' Hview.
  - split; reflexivity.
  - rewrite !asyncMap_cons.
    pose proof (Hkeeps item w ltac:(left; reflexivity)) as Hw.
    pose proof (Hkeeps item w' ltac:(left; reflexivity)) as Hw'.
    pose proof (Hreads item w w' ltac:(left; reflexivity) Hview) as Hsame.
    destruct (f item w) as [[e|r] w1], (f item w') as [[e'|r'] w1'];
      simpl in Hw, Hw', Hsame; try discriminate.
    + injection Hsame as <-. simpl. split; [reflexivity | exact Hw].
    + injection Hsame as <-.
      destruct (IH (fun x w0 Hx => Hkeeps x w0 ltac:(right; exact Hx))
                   (fun x w0 w0' Hx => Hreads x w0 w0' ltac:(right; exact Hx))
                   w1 w1' ltac:(congruence)) as [Hrest Hview1].
      destruct (asyncMap rest f w1) as [[e|rs] w2], (asyncMap rest f w1') as [[e'|rs'] w2'];
        simpl in Hrest, Hview1; try discriminate.
      * injection Hrest as <-. simpl. split; [reflexivity | congruence].
      * injection Hrest as <-. simpl. split; [reflexivity | congruence].
Qed.

End AsyncMapFacts.

(** ** Descriptions *)

Module DescriptionFacts.
Import Abilities Description.

Lemma append_empty_r (s : string) : s +:+ "" = s.
Proof.
  induction s as [|c s IH]; [reflexivity|].
  change (String c (s +:+ "") = String c s). f_equal. exact IH.
Qed.

Lemma join_cons (s : string) (rest : list string) :
  String.concat "" (s :: rest) = s +:+ String.concat "" rest.
Proof.
  destruct rest as [|s' rest]; [symmetry; apply append_empty_r | reflexivity].
Qed.

Lemma segments_empty (parameters : list string) : segments [] parameters = [].
Proof. reflexivity. Qed.

Lemma segments_last (template : string) (templates : list string) :
  segments (template :: templates) [] = template :: segments templates [].
Proof. reflexivity. Qed.

Lemma segments_step (template d : string) (templates descriptions : list string) :
  segments (template :: templates) (d :: descriptions) =
  template :: d :: segments templates descriptions.
Proof. reflexivity. Qed.

(** The code's [flatMap] and [join] compute the description that the spec
    words. *)
Lemma interpolate_interposed (templates : list string) :
  forall descriptions, interpolate templates descriptions = interposed templates descriptions.
Proof.
  unfold interpolate.
  induction templates as [|t ts IH]; intros [|d ds]; try reflexivity.
  - rewrite segments_last, join_cons. simpl. now rewrite IH.
  - rewrite segments_step, !join_cons. simpl. now rewrite IH.
Qed.

Lemma segments_length (templates : list string) :
  forall descriptions,
    length (segments templates descriptions) =
    length templates + Nat.min (length templates) (length descriptions).
Proof.
  induction templates as [|t ts IH]; intros [|d ds]; try reflexivity.
  - rewrite segments_last. simpl. rewrite IH. destruct ts; simpl; lia.
  - rewrite segments_step. simpl. rewrite IH. lia.
Qed.

Lemma segments_template (templates : list string) :
  forall descriptions i,
    i <= length descriptions ->
    segments templates descriptions !! (2 * i) = templates !! i.
Proof.
  induction templates as [|t ts IH]; intros ds i Hi; [reflexivity|].
  destruct i as [|i].
  - destruct ds; reflexivity.
  - destruct ds as [|d ds]; simpl in Hi; [lia|].
    rewrite segments_step. replace (2 * S i) with (S (S (2 * i))) by lia.
    simpl. apply IH. lia.
Qed.

Lemma segments_placeholder (templates : list string) :
  forall descriptions i,
    i < length templates ->
    i < length descriptions ->
    segments templates descriptions !! (2 * i + 1) = descriptions !! i.
Proof.
  induction templates as [|t ts IH]; intros ds i Ht Hd; simpl in Ht; [lia|].
  destruct ds as [|d ds]; simpl in Hd; [lia|].
  rewrite segments_step. destruct i as [|i]; [reflexivity|].
  replace (2 * S i + 1) with (S (S (2 * i + 1))) by lia.
  simpl. apply IH; lia.
Qed.

Section Built.

Context {W : Type}.
Variable formattedValue :
  option DescriptionFormattingOptions -> Placeholder W -> QuestionAdapter W.

(** A question built by [the] is the one [templateToQuestion] makes. *)
Lemma builtByThe_templateToQuestion (templates : list string)
    (parameters : list (Placeholder W)) (options : option DescriptionFormattingOptions)
    (question : QuestionAdapter W) :
  builtByThe formattedValue templates parameters options question ->
  question = templateToQuestion formattedValue templates parameters options.
Proof.
  intros [q H | first rest tag H].
  - unfold the in H. simpl in H. congruence.
  - unfold the in H. destruct (isPlainObject first).
    + inversion H; subst. reflexivity.
    + destruct first; discriminate.
Qed.

Lemma body_templateToQuestion (templates : list string) (parameters : list (Placeholder W))
    (options : option DescriptionFormattingOptions) (actor : Actor W) (w : W) :
  body (templateToQuestion formattedValue templates parameters options) actor w =
  match asyncMap parameters (describeParameter formattedValue options actor) w with
  | (inr descriptions, w') => (inr (interpolate templates descriptions), w')
  | (inl e, w') => (inl e, w')
  end.
Proof.
  unfold templateToQuestion, bind, ret. simpl.
  destruct (asyncMap parameters _ w) as [[e|ds] w']; reflexivity.
Qed.

(** C1.  A question built by [the] from k literal segments and k-1
    placeholders describes itself as [templates[0] + d1 + templates[1] + ...
    + d(k-1) + templates[k-1]], where [di] is the resolved description of the
    i-th placeholder: the joined segments are the literal segments, verbatim
    and in their order, at the even positions, and the resolved placeholders,
    in their order, at the odd ones; nothing else is in between, nothing is
    dropped. *)
Theorem the_description_round_trip (templates : list string)
    (parameters : list (Placeholder W)) (options : option DescriptionFormattingOptions)
    (question : QuestionAdapter W) (actor : Actor W) (w w' : W) (descriptions : list string) :
  builtByThe formattedValue templates parameters options question ->
  length templates = S (length parameters) ->
  asyncMap parameters (describeParameter formattedValue options actor) w
    = (inr descriptions, w') ->
  body question actor w = (inr (interposed templates descriptions), w')
  /\ Forall2 (fun parameter d =>
               exists w1 w2,
                 describeParameter formattedValue options actor parameter w1 = (inr d, w2))
             parameters descriptions
  /\ String.concat "" (segments templates descriptions) = interposed templates descriptions
  /\ length (segments templates descriptions) = length templates + length parameters
  /\ (forall i, i < length templates ->
        segments templates descriptions !! (2 * i) = templates !! i)
  /\ (forall i, i < length parameters ->
        segments templates descriptions !! (2 * i + 1) = descriptions !! i).
Proof.
  intros Hbuilt Hlen Hmap.
  apply builtByThe_templateToQuestion in Hbuilt. subst question.
  pose proof (asyncMap_length _ _ _ _ _ Hmap) as Hds.
  repeat split.
  - rewrite body_templateToQuestion, Hmap. now rewrite interpolate_interposed.
  - eapply asyncMap_Forall2; eauto.
  - apply interpolate_interposed.
  - rewrite segments_length, Hds. lia.
  - intros i Hi. apply segments_template. lia.
  - intros i Hi. apply segments_placeholder; lia.
Qed.

(** C8, amended.  Describing a question built by [the] twice, with the same
    options and the same actor, gives the same description both times,
    provided its placeholders are resolved alike both times: what the
    resolution of a placeholder depends on in the world (what [view] shows
    of it) is not changed by resolving a placeholder.  The question keeps no
    state of its own between the calls; what else the placeholders do to the
    world does not matter. *)
Theorem the_description_idempotent {V : Type} (view : W -> V) (templates : list string)
    (parameters : list (Placeholder W)) (options : option DescriptionFormattingOptions)
    (question : QuestionAdapter W) (actor : Actor W) (w : W) :
  builtByThe formattedValue templates parameters options question ->
  (forall parameter w0,
      parameter ∈ parameters ->
      view (snd (describeParameter formattedValue options actor parameter w0)) = view w0) ->
  (forall parameter w0 w1,
      parameter ∈ parameters ->
      view w0 = view w1 ->
      fst (describeParameter formattedValue options actor parameter w0) =
      fst (describeParameter formattedValue options actor parameter w1)) ->
  fst (body question actor (snd (body question actor w))) = fst (body question actor w)
  /\ view (snd (body question actor w)) = view w.
Proof.
  intros Hbuilt Hkeeps Hreads.
  apply builtByThe_templateToQuestion in Hbuilt. subst question.
  assert (Hbody : forall w0 w1,
             view w0 = view w1 ->
             fst (body (templateToQuestion formattedValue templates parameters options)
                    actor w0) =
             fst (body (templateToQuestion formattedValue templates parameters options)
                    actor w1)
             /\ view (snd (body (templateToQuestion formattedValue templates parameters
                                   options) actor w0)) = view w0).
  { intros w0 w1 Hview. rewrite !body_templateToQuestion.
    destruct (asyncMap_observed view (describeParameter formattedValue options actor)
                parameters Hkeeps Hreads w0 w1 Hview) as [Hfst Hsnd].
    destruct (asyncMap parameters _ w0) as [[e|ds] w0'],
             (asyncMap parameters _ w1) as [[e'|ds'] w1'];
      simpl in Hfst, Hsnd; try discriminate.
    - injection Hfst as <-. split; [reflexivity | exact Hsnd].
    - injection Hfst as <-. split; [reflexivity | exact Hsnd]. }
  destruct (Hbody w w eq_refl) as [_ Hview].
  split; [|exact Hview].
  apply Hbody. exact Hview.
Qed.

(** C10.  [the] dispatches on its first argument.  It gives a template tag
    function if and only if that argument is a plain object; the tag
    function then builds the question that the direct form builds, by the
    same [templateToQuestion], with the plain object as the formatting
    options instead of none, so the two questions differ only where a
    placeholder is resolved differently with options; and the strings of a
    template literal as first argument are never taken for options. *)
Theorem the_dispatches_on_plain_object (first : Arg W) (rest : list (Placeholder W)) :
  (isPlainObject first = true <->
   exists tag, the formattedValue first rest = TagFunction tag)
  /\ (forall options,
        plainObject first = Some options ->
        exists tag,
          the formattedValue first rest = TagFunction tag
          /\ forall templates parameters,
               tag templates parameters =
               templateToQuestion formattedValue templates parameters (Some options))
  /\ (forall templates,
        first = Templates templates ->
        isPlainObject first = false
        /\ the formattedValue first rest =
           Built (templateToQuestion formattedValue templates rest None))
  /\ (forall templates parameters options actor,
        (forall parameter,
            parameter ∈ parameters ->
            describeParameter formattedValue (Some options) actor parameter =
            describeParameter formattedValue None actor parameter) ->
        body (templateToQuestion formattedValue templates parameters (Some options)) actor =
        body (templateToQuestion formattedValue templates parameters None) actor).
Proof.
  repeat split.
  - intros H. unfold the. rewrite H. eauto.
  - intros [tag H]. unfold the in H. destruct (isPlainObject first); [reflexivity|].
    destruct first; discriminate.
  - intros options H. unfold the, isPlainObject. rewrite H. eexists. split; reflexivity.
  - subst first. reflexivity.
  - subst first. reflexivity.
  - intros templates parameters options actor H. simpl.
    rewrite (asyncMap_ext _ _ _ H). reflexivity.
Qed.

End Built.

Section Formatting.

Context {W : Type}.
Variable trimmed : DescriptionFormattingOptions -> string -> string.

(** C5.  When the description of a question built with [the] is resolved
    for an actor, a placeholder that is a [Describable] contributes what its
    [describedBy] gives for that actor; any other placeholder is answered by
    the actor as an [Answerable] and contributes its value under the default
    formatting strategy: a string is quoted, a plain object rendered, a
    custom string conversion used as it is, a masked value replaced by the
    fixed marker. *)
Theorem placeholder_resolution (templates : list string)
    (parameters : list (Placeholder W)) (options : option DescriptionFormattingOptions)
    (question : QuestionAdapter W) (actor : Actor W) (w w' : W) (text : string) :
  builtByThe (specFormattedValue trimmed) templates parameters options question ->
  body question actor w = (inr text, w') ->
  (exists descriptions,
      text = interpolate templates descriptions
      /\ Forall2 (contribution trimmed options actor) parameters descriptions)
  /\ (forall formattedValue describedBy,
        describeParameter formattedValue options actor (Describable describedBy) =
        describedBy actor)
  /\ (forall formattedValue value,
        describeParameter formattedValue options actor (Now value) =
        answer actor (formattedValue options (Now value)))
  /\ (forall formattedValue settles,
        describeParameter formattedValue options actor (Promised settles) =
        answer actor (formattedValue options (Promised settles)))
  /\ (forall s, formatted trimmed None (VString s) = quote +:+ s +:+ quote)
  /\ (forall fields,
        formatted trimmed None (VObject fields) =
        "{ " +:+
        String.concat ", "
          (map (fun field => match field with
                             | (key, v) => key +:+ ": " +:+ stringified v
                             end) fields) +:+
        " }")
  /\ (forall toString, formatted trimmed None (VCustom toString) = toString)
  /\ (forall secret, formatted trimmed None (VMasked secret) = "[a masked value]").
Proof.
  intros Hbuilt Hbody.
  apply builtByThe_templateToQuestion in Hbuilt. subst question.
  rewrite body_templateToQuestion in Hbody.
  destruct (asyncMap parameters _ w) as [[e|ds] w1] eqn:Hmap; [discriminate|].
  inversion Hbody; subst. clear Hbody.
  split; [|repeat split; reflexivity].
  exists ds. split; [reflexivity|].
  apply asyncMap_Forall2 in Hmap.
  induction Hmap as [|p d ps ds' (w1 & w2 & Hp) _ IH]; constructor; [|exact IH].
  destruct p as [describedBy | value | [reason | value]]; simpl in Hp.
  - econstructor. exact Hp.
  - inversion Hp. constructor.
  - discriminate.
  - inversion Hp. constructor.
Qed.

End Formatting.

(** The descriptions of the scenarios, run. *)
Example dials_described :
  body (templateToQuestion (specFormattedValue Scenarios.inFull) Scenarios.dials
          [ Now (VString "(555) 123-4567"); Scenarios.phoneNumber ] None)
       Scenarios.alice 0
  = (inr ("#actor dials " +:+ quote +:+ "(555) 123-4567" +:+ quote +:+ " from phone number"), 0).
Proof. reflexivity. Qed.

Example masked_described :
  body (templateToQuestion (specFormattedValue Scenarios.inFull) [ "#actor dials "; "" ]
          [ Now (VMasked "(555) 123-4567") ] None)
       Scenarios.alice 0
  = (inr "#actor dials [a masked value]", 0).
Proof. reflexivity. Qed.

Example object_described :
  stringified (VObject [ ("areaCode", VString "555"); ("lineNumber", VNumber 4567) ])
  = "{ areaCode: " +:+ quote +:+ "555" +:+ quote +:+ ", lineNumber: 4567 }".
Proof. reflexivity. Qed.

(** C8, as the spec has it, does not hold: a question built by [the] whose
    placeholder counts how often it was described is described differently
    the second time, by the same actor and with the same options. *)
Lemma the_description_not_idempotent :
  let question :=
    templateToQuestion (specFormattedValue Scenarios.inFull) [ "asked "; " times" ]
      [ Scenarios.counting ] None in
  builtByThe (specFormattedValue Scenarios.inFull) [ "asked "; " times" ]
    [ Scenarios.counting ] None question
  /\ fst (body question Scenarios.alice 0) = inr "asked 0 times"
  /\ fst (body question Scenarios.alice (snd (body question Scenarios.alice 0)))
     = inr "asked 1 times"
  /\ fst (body question Scenarios.alice (snd (body question Scenarios.alice 0)))
     <> fst (body question Scenarios.alice 0).
Proof.
  intros question. split; [apply builtDirectly; reflexivity|].
  split; [reflexivity|]. split; [reflexivity|]. discriminate.
Qed.

(** The two descriptions, with the worlds they leave. *)
Remark counting_described_twice :
  let question :=
    templateToQuestion (specFormattedValue Scenarios.inFull) [ "asked "; " times" ]
      [ Scenarios.counting ] None in
  body question Scenarios.alice 0 = (inr "asked 0 times", 1)
  /\ body question Scenarios.alice 1 = (inr "asked 1 times", 2).
Proof. split; reflexivity. Qed.

Lemma the_description_round_trip_witness :
  let parameters := [ Now (VString "(555) 123-4567"); Scenarios.phoneNumber ] in
  let question :=
    templateToQuestion (specFormattedValue Scenarios.inFull) Scenarios.dials parameters None in
  let descriptions := [ quote +:+ "(555) 123-4567" +:+ quote; "phone number" ] in
  length Scenarios.dials = S (length parameters)
  /\ asyncMap parameters
       (describeParameter (specFormattedValue Scenarios.inFull) None Scenarios.alice) 0
     = (inr descriptions, 0)
  /\ body question Scenarios.alice 0 = (inr (interposed Scenarios.dials descriptions), 0).
Proof.
  intros parameters question descriptions.
  split; [reflexivity|]. split; [reflexivity|].
  apply (the_description_round_trip (specFormattedValue Scenarios.inFull)
           Scenarios.dials parameters None question Scenarios.alice 0 0 descriptions).
  - apply builtDirectly. reflexivity.
  - reflexivity.
  - reflexivity.
Defined.

Lemma the_description_idempotent_witness :
  let parameters := [ Scenarios.parity; Scenarios.phoneNumber ] in
  let question :=
    templateToQuestion (specFormattedValue Scenarios.inFull) Scenarios.dials parameters None in
  body question Scenarios.alice 7 = (inr "#actor dials odd from phone number", 9)
  /\ fst (body question Scenarios.alice (snd (body question Scenarios.alice 7)))
     = fst (body question Scenarios.alice 7).
Proof.
  intros parameters question. split; [reflexivity|].
  apply (the_description_idempotent (specFormattedValue Scenarios.inFull) Nat.even
           Scenarios.dials parameters None question Scenarios.alice 7).
  - apply builtDirectly. reflexivity.
  - intros parameter w0 Hin.
    apply elem_of_cons in Hin as [-> | Hin]; [reflexivity|].
    apply elem_of_cons in Hin as [-> | Hin]; [reflexivity|].
    apply elem_of_nil in Hin. destruct Hin.
  - intros parameter w0 w1 Hin Hview.
    apply elem_of_cons in Hin as [-> | Hin]; [simpl; now rewrite Hview|].
    apply elem_of_cons in Hin as [-> | Hin]; [reflexivity|].
    apply elem_of_nil in Hin. destruct Hin.
Defined.

Lemma the_dispatches_on_plain_object_witness :
  (exists tag,
      the (specFormattedValue Scenarios.inFull)
        (Other (Now (VObject Scenarios.maxLength10))) ([] : list (Placeholder Scenarios.Asked))
      = TagFunction tag
      /\ forall templates parameters,
           tag templates parameters =
           templateToQuestion (specFormattedValue Scenarios.inFull) templates parameters
             (Some Scenarios.maxLength10))
  /\ body (templateToQuestion (specFormattedValue Scenarios.inFull) Scenarios.dials
             [ Scenarios.phoneNumber; Scenarios.phoneNumber ] (Some Scenarios.maxLength10))
          Scenarios.alice
     = body (templateToQuestion (specFormattedValue Scenarios.inFull) Scenarios.dials
               [ Scenarios.phoneNumber; Scenarios.phoneNumber ] None)
            Scenarios.alice.
Proof.
  pose proof (the_dispatches_on_plain_object (specFormattedValue Scenarios.inFull)
                (Other (Now (VObject Scenarios.maxLength10)))
                ([] : list (Placeholder Scenarios.Asked)))
    as (_ & Htag & _ & Hsame).
  split.
  - apply Htag. reflexivity.
  - apply Hsame. intros parameter Hin.
    apply elem_of_cons in Hin as [-> | Hin]; [reflexivity|].
    apply elem_of_cons in Hin as [-> | Hin]; [reflexivity|].
    apply elem_of_nil in Hin. destruct Hin.
Defined.

Lemma placeholder_resolution_witness :
  let parameters := [ Now (VMasked "(555) 123-4567"); Scenarios.phoneNumber ] in
  let question :=
    templateToQuestion (specFormattedValue Scenarios.inFull) Scenarios.dials parameters None in
  body question Scenarios.alice 0
  = (inr "#actor dials [a masked value] from phone number", 0)
  /\ exists descriptions,
       "#actor dials [a masked value] from phone number"
       = interpolate Scenarios.dials descriptions
       /\ Forall2 (contribution Scenarios.inFull None Scenarios.alice) parameters descriptions.
Proof.
  intros parameters question.
  split; [reflexivity|].
  apply (placeholder_resolution Scenarios.inFull Scenarios.dials parameters None question
           Scenarios.alice 0 0 "#actor dials [a masked value] from phone number").
  - apply builtDirectly. reflexivity.
  - reflexivity.
Defined.

End DescriptionFacts.

(** ** Abilities *)

Module AbilitiesFacts.
Import Abilities.

Lemma whoCan_last {W : Type} (actor : Actor W) (ability : Ability W) :
  abilities (whoCan [ ability ] actor) !! abilityType ability = Some ability.
Proof. simpl. apply lookup_insert_eq. Qed.

(** C9.  [BrowseTheWeb.as(actor)], that is [actor.abilityTo(BrowseTheWeb)],
    returns the [BrowseTheWeb] ability registered with the actor, and with no
    such ability it fails with the "ability not found" error that names the
    actor and the missing capability. *)
Theorem BrowseTheWeb_as_registered_or_not_found {W : Type} (actor : Actor W) :
  (forall ability,
      abilities actor !! BrowseTheWeb = Some ability ->
      BrowseTheWeb_as actor = inr ability)
  /\ (abilities actor !! BrowseTheWeb = None ->
      BrowseTheWeb_as actor = inl (AbilityNotFound (name actor) BrowseTheWeb))
  /\ (forall ability,
        abilityType ability = BrowseTheWeb ->
        BrowseTheWeb_as (whoCan [ ability ] actor) = inr ability).
Proof.
  unfold BrowseTheWeb_as, abilityTo. repeat split.
  - intros ability H. now rewrite H.
  - intros H. now rewrite H.
  - intros ability H. rewrite <- H, whoCan_last. reflexivity.
Qed.

Lemma BrowseTheWeb_as_registered_or_not_found_witness :
  BrowseTheWeb_as Scenarios.bob = inr (mkAbility BrowseTheWeb (ret "PNG-bytes"))
  /\ BrowseTheWeb_as Scenarios.carol = inl (AbilityNotFound "Carol" "BrowseTheWeb")
  /\ BrowseTheWeb_as (whoCan [ mkAbility BrowseTheWeb (ret "PNG-bytes") ] Scenarios.carol)
     = inr (mkAbility BrowseTheWeb (ret "PNG-bytes")).
Proof.
  split; [|split].
  - apply (BrowseTheWeb_as_registered_or_not_found Scenarios.bob). reflexivity.
  - apply (BrowseTheWeb_as_registered_or_not_found Scenarios.carol). reflexivity.
  - apply (BrowseTheWeb_as_registered_or_not_found Scenarios.carol). reflexivity.
Defined.

End AbilitiesFacts.

(** ** The photographer *)

Module PhotographyFacts.
Import Abilities Photography.

(** C7.  [takeAPictureOf] sends the screenshot to the outlet under the file
    name [Md5.hashStr(data) + '.png'], which depends on the bytes of the
    screenshot alone, and returns the [Screenshot] of the given step and of
    the path that the outlet answered with. *)
Theorem takeAPictureOf_content_addressed {W Step : Type} (hashStr : string -> string)
    (this : Photographer W) (actor : Actor W) (step : Step) (browser : Ability W)
    (data path : string) (w w1 w2 : W) :
  BrowseTheWeb_as actor = inr browser ->
  takeScreenshot browser w = (inr data, w1) ->
  sendPicture (outlet this) (hashStr data +:+ ".png") data w1 = (inr path, w2) ->
  takeAPictureOf hashStr this actor step w = (inr (mkScreenshot step path), w2)
  /\ filenameFor hashStr data = hashStr data +:+ ".png"
  /\ (forall (that : Photographer W) (actor' : Actor W) (step' : Step) (browser' : Ability W)
        (w3 w4 : W),
        BrowseTheWeb_as actor' = inr browser' ->
        takeScreenshot browser' w3 = (inr data, w4) ->
        takeAPictureOf hashStr that actor' step' w3 =
        match sendPicture (outlet that) (filenameFor hashStr data) data w4 with
        | (inr path', w5) => (inr (mkScreenshot step' path'), w5)
        | (inl e, w5) => (inl e, w5)
        end).
Proof.
  intros Hability Hshot Hsent.
  assert (Hrun : forall (that : Photographer W) (actor' : Actor W) (step' : Step)
                   (browser' : Ability W) (w3 w4 : W),
             BrowseTheWeb_as actor' = inr browser' ->
             takeScreenshot browser' w3 = (inr data, w4) ->
             takeAPictureOf hashStr that actor' step' w3 =
             match sendPicture (outlet that) (filenameFor hashStr data) data w4 with
             | (inr path', w5) => (inr (mkScreenshot step' path'), w5)
             | (inl e, w5) => (inl e, w5)
             end).
  { intros that actor' step' browser' w3 w4 Ha Hs.
    unfold takeAPictureOf, saveScreenshot, bind, ret. rewrite Ha, Hs.
    destruct (sendPicture _ _ _ w4) as [[e|p] w5]; reflexivity. }
  split; [|split; [reflexivity | exact Hrun]].
  rewrite (Hrun this actor step browser w w1 Hability Hshot).
  unfold filenameFor. now rewrite Hsent.
Qed.

Lemma takeAPictureOf_content_addressed_witness :
  takeAPictureOf Scenarios.lengthHash (mkPhotographer (directoryOutlet "target"))
    Scenarios.bob "step 1" (∅ : Scenarios.Files)
  = (inr (mkScreenshot "step 1" "target/9.png"), {[ "9.png" := "PNG-bytes" ]}).
Proof.
  apply (takeAPictureOf_content_addressed Scenarios.lengthHash
           (mkPhotographer (directoryOutlet "target")) Scenarios.bob "step 1"
           (mkAbility BrowseTheWeb (ret "PNG-bytes")) "PNG-bytes" "target/9.png"
           ∅ ∅ {[ "9.png" := "PNG-bytes" ]}).
  - reflexivity.
  - reflexivity.
  - reflexivity.
Defined.

(** With an outlet that keeps its pictures in a directory, a second capture
    of the same bytes is stored over the first. *)
Remark identical_captures_share_a_file :
  let photographer := mkPhotographer (directoryOutlet "target") in
  let once := snd (takeAPictureOf Scenarios.lengthHash photographer Scenarios.bob "step 1" ∅) in
  snd (takeAPictureOf Scenarios.lengthHash photographer Scenarios.bob "step 2" once) = once.
Proof.
  simpl. unfold takeAPictureOf, saveScreenshot, bind, ret. simpl.
  apply insert_insert_eq.
Qed.

(** An actor without the ability: the error of the lookup comes out, and
    the outlet is not asked to store anything. *)
Remark takeAPictureOf_without_ability :
  takeAPictureOf Scenarios.lengthHash (mkPhotographer (directoryOutlet "target"))
    Scenarios.carol "step 1" (∅ : Scenarios.Files)
  = (inl (AbilityNotFound "Carol" "BrowseTheWeb"), ∅).
Proof. reflexivity. Qed.

End PhotographyFacts.

(** ** The Playwright step reporter *)

Module ReporterFacts.
Import Reporter.

Ltac notified :=
  unfold CorrelationId in *;
  unfold notifyOf, onFulfilled, bind, ret, throw, gets, modify, steps_has, steps_get,
    steps_set, complete, createStep, CorrelationId_create, this_stage, announce,
    attach_then; simpl.

Section Notified.

Variable web : string.

(** *** Terminal events *)

(** A completion, an abort or a failure of an operation that the reporter
    keeps no step for is ignored. *)
Lemma async_terminal_unknown_ignored (s : State) (id : string) (t : nat) (e : Error) :
  steps s !! id = None ->
  notifyOf web (AsyncOperationCompleted id t) s = (inr tt, s)
  /\ notifyOf web (AsyncOperationAborted id t) s = (inr tt, s)
  /\ notifyOf web (AsyncOperationFailed e id t) s = (inr tt, s).
Proof. intros H. notified. rewrite H. auto. Qed.

(** The end of an activity that the reporter keeps no step for makes
    [notifyOf] throw. *)
Lemma finished_unknown_throws (s : State) (id : string) (details : ActivityDetails)
    (outcome : Outcome) :
  steps s !! id = None ->
  exists message,
    notifyOf web (TaskFinished id details outcome) s = (inl (TypeError message), s)
    /\ notifyOf web (InteractionFinished id details outcome) s = (inl (TypeError message), s).
Proof.
  intros H. eexists. notified. destruct outcome; notified; rewrite H; split; reflexivity.
Qed.

(** A terminal event for a known id completes the step kept under it, with
    the error of the event if it has one, and changes nothing else. *)
Lemma terminal_known_completes (s : State) (event : DomainEvent) (id : string)
    (ref : nat) :
  terminalId event = Some id ->
  steps s !! id = Some ref ->
  notifyOf web event s =
  (inr tt,
   withTestInfo (fun info =>
     mkTestInfo (alter (completeStep (terminalResult event)) ref (added info))
       (attached info) (annotations info)) s).
Proof.
  intros Hterminal Hknown.
  destruct event; simpl in Hterminal; try discriminate;
    injection Hterminal as ->; notified;
    try (destruct outcome; notified); repeat (rewrite Hknown; notified); reflexivity.
Qed.

(** No event takes a key out of the [steps] map: a key stays, with its
    record, unless the event starts something under the same key, which
    puts the new step there. *)
Lemma steps_kept (s : State) (event : DomainEvent) (id : string) (ref : nat) :
  steps s !! id = Some ref ->
  steps (snd (notifyOf web event s)) !! id =
  if decide (startedId event = Some id)
  then Some (length (added (testInfo s)))
  else Some ref.
Proof.
  intros Hknown.
  destruct event; simpl startedId.
  - notified. case_decide as Hid.
    + injection Hid as ->. apply lookup_insert_eq.
    + rewrite lookup_insert_ne by (intros ->; apply Hid; reflexivity). exact Hknown.
  - rewrite decide_False by discriminate.
    notified. destruct outcome; notified; destruct (steps s !! activityId); exact Hknown.
  - notified. case_decide as Hid.
    + injection Hid as ->. apply lookup_insert_eq.
    + rewrite lookup_insert_ne by (intros ->; apply Hid; reflexivity). exact Hknown.
  - rewrite decide_False by discriminate.
    notified. destruct outcome; notified; destruct (steps s !! activityId); exact Hknown.
  - notified. destruct (String.prefix Photographer_name name0).
    + simpl. case_decide as Hid.
      * injection Hid as ->. apply lookup_insert_eq.
      * rewrite lookup_insert_ne by (intros ->; apply Hid; reflexivity). exact Hknown.
    + rewrite decide_False by discriminate. exact Hknown.
  - rewrite decide_False by discriminate.
    notified. destruct (steps s !! correlationId) eqn:E; notified; rewrite ?E; exact Hknown.
  - rewrite decide_False by discriminate.
    notified. destruct (steps s !! correlationId) eqn:E; notified; rewrite ?E; exact Hknown.
  - rewrite decide_False by discriminate.
    notified. destruct (steps s !! correlationId) eqn:E; notified; rewrite ?E; exact Hknown.
  - rewrite decide_False by discriminate.
    destruct artifact; notified; [destruct (stage s)|]; exact Hknown.
  - rewrite decide_False by discriminate. destruct tag. exact Hknown.
  - rewrite decide_False by discriminate. exact Hknown.
Qed.

(** What the reporter announces comes back to it, as to every member of
    the crew; it changes nothing there, unless the [steps] map has the id. *)
Lemma own_announcements_ignored (s : State) (id description : string) (t : nat) :
  steps s !! id = None ->
  notifyOf web (AsyncOperationAttempted constructor_name description id t) s = (inr tt, s)
  /\ notifyOf web (AsyncOperationCompleted id t) s = (inr tt, s).
Proof. intros H. notified. rewrite H. auto. Qed.

(** *** Announcements *)

(** An artifact that is a photo, at a reporter that has its stage. *)
Lemma notifyOf_photo (s : State) (stg : Stage) (activityId : string) (name base64 : string)
    (timestamp : nat) :
  stage s = Some stg ->
  notifyOf web (ActivityRelatedArtifactGenerated activityId name (Photo base64) timestamp) s =
  (inr tt,
   mkState (steps s)
     (mkTestInfo (added (testInfo s))
        (attached (testInfo s) ++ [ mkAttachment name base64 "image/png" ])
        (annotations (testInfo s)))
     (Some (mkStage (currentTime stg)
              (announced stg ++
               [ AsyncOperationAttempted constructor_name
                   ("Attaching screenshot of '" +:+ name +:+ "'...")
                   (idOf (created s)) (currentTime stg) ])))
     (S (created s))
     (promises s ++ [ mkPromise (idOf (created s)) None ])
     (unhandled s)).
Proof.
  intros H. notified. rewrite H. notified.
  unfold withPromises, withTestInfo, withStage, withCreated. simpl. rewrite H. reflexivity.
Qed.

(** The same at a reporter without a stage: [notifyOf] throws, after the
    correlation id was created. *)
Lemma notifyOf_photo_unassigned (s : State) (activityId : string) (name base64 : string)
    (timestamp : nat) :
  stage s = None ->
  exists message,
    notifyOf web (ActivityRelatedArtifactGenerated activityId name (Photo base64) timestamp) s =
    (inl (TypeError message), withCreated S s).
Proof. intros H. eexists. notified. rewrite H. reflexivity. Qed.

(** Every other event leaves the stage, the promises and the ids alone. *)
Lemma notifyOf_quiet (event : DomainEvent) (s : State) :
  (forall activityId name base64 timestamp,
      event <> ActivityRelatedArtifactGenerated activityId name (Photo base64) timestamp) ->
  stage (snd (notifyOf web event s)) = stage s
  /\ promises (snd (notifyOf web event s)) = promises s
  /\ created (snd (notifyOf web event s)) = created s
  /\ unhandled (snd (notifyOf web event s)) = unhandled s.
Proof.
  intros Hother.
  destruct event; notified;
    try (destruct outcome; notified);
    repeat match goal with
           | |- context [steps s !! ?key] => destruct (steps s !! key); notified
           end;
    try match goal with
        | |- context [String.prefix ?p ?n] => destruct (String.prefix p n); notified
        end;
    try (destruct tag; notified);
    try (repeat split; reflexivity).
  destruct artifact; [|repeat split; reflexivity].
  exfalso. eapply Hother. reflexivity.
Qed.

Lemma announcements_stage (s s' : State) :
  stage s' = stage s -> announcements s' = announcements s.
Proof. unfold announcements. now intros ->. Qed.

(** What an action does, at a reporter that has its stage. *)
Lemma step_effect (action : Action) (s : State) :
  is_Some (stage s) ->
  is_Some (stage (step web action s)) /\ effect s (step web action s).
Proof.
  intros [stg Hstage].
  destruct action as [event | promise outcome |]; simpl.
  - assert (Hphoto :
      (exists activityId name base64 timestamp,
          event = ActivityRelatedArtifactGenerated activityId name (Photo base64) timestamp)
      \/ (forall activityId name base64 timestamp,
            event <> ActivityRelatedArtifactGenerated activityId name (Photo base64) timestamp)).
    { destruct event; try (right; discriminate).
      destruct artifact; [left; eauto | right; discriminate]. }
    destruct Hphoto as [(activityId & name & base64 & timestamp & ->) | Hother].
    + rewrite (notifyOf_photo s stg) by exact Hstage. simpl. split; [eauto|].
      eapply attempts; unfold announcements; simpl; rewrite ?Hstage; reflexivity.
    + destruct (notifyOf_quiet event s Hother) as (Hs & Hp & Hc & _).
      split; [rewrite Hs, Hstage; eauto|].
      apply quiet; [apply announcements_stage|..]; assumption.
  - unfold settle.
    destruct (promises s !! promise) as [[id [already|]]|] eqn:Hpromise;
      try (split; [rewrite Hstage; eauto | apply quiet; reflexivity]).
    destruct outcome as [|reason].
    + notified. repeat (rewrite Hstage; simpl). split; [eauto|].
      eapply fulfils; unfold announcements; simpl; rewrite ?Hstage; eauto.
    + simpl. split; [rewrite Hstage; eauto|].
      eapply rejects; unfold announcements; simpl; eauto.
  - unfold tick. simpl. rewrite Hstage. simpl. split; [eauto|].
    apply quiet; unfold announcements; simpl; rewrite ?Hstage; reflexivity.
Qed.

End Notified.

(** *** Counting ids *)

Lemma occurrences_cons (id x : string) (ids : list string) :
  occurrences id (x :: ids) = (if decide (x = id) then 1 else 0) + occurrences id ids.
Proof.
  unfold occurrences. rewrite filter_cons.
  repeat case_decide; simpl in *; try reflexivity; congruence.
Qed.

Lemma occurrences_app (id : string) (ids ids' : list string) :
  occurrences id (ids ++ ids') = occurrences id ids + occurrences id ids'.
Proof. unfold occurrences. now rewrite filter_app, length_app. Qed.

Lemma occurrences_absent (id : string) (ids : list string) :
  id ∉ ids -> occurrences id ids = 0.
Proof.
  induction ids as [|x ids IH]; intros Hid; [reflexivity|].
  rewrite occurrences_cons, IH.
  - rewrite decide_False; [reflexivity|]. intros ->. apply Hid. left.
  - intros Hin. apply Hid. right. exact Hin.
Qed.

Lemma occurrences_zero (id : string) (ids : list string) :
  occurrences id ids = 0 -> id ∉ ids.
Proof.
  induction ids as [|x ids IH]; intros Hzero Hin; [inversion Hin|].
  rewrite occurrences_cons in Hzero.
  apply elem_of_cons in Hin as [-> | Hin].
  - rewrite decide_True in Hzero by reflexivity. discriminate.
  - apply IH; [lia | exact Hin].
Qed.

Lemma fulfilledIds_awaited (id : string) (ps : list AttachPromise) :
  id ∈ fulfilledIds ps -> id ∈ map awaited ps.
Proof.
  induction ps as [|[id' [[|reason]|]] ps IH]; simpl; intros H;
    try (right; apply IH; exact H).
  - inversion H.
  - apply elem_of_cons in H as [-> | H]; [left | right; apply IH; exact H].
Qed.

(** Fulfilling a pending promise adds its id to the fulfilled ones. *)
Lemma fulfilledIds_fulfil (ps : list AttachPromise) :
  forall (promise : nat) (id id' : string),
    ps !! promise = Some (mkPromise id None) ->
    occurrences id' (fulfilledIds (<[promise := mkPromise id (Some Fulfilled)]> ps)) =
    occurrences id' (fulfilledIds ps) + occurrences id' [ id ].
Proof.
  induction ps as [|p ps IH]; intros [|promise] id id' H; try discriminate.
  - injection H as ->. simpl. rewrite !occurrences_cons.
    change (occurrences id' []) with 0. destruct (decide (id = id')); lia.
  - simpl in H. simpl.
    destruct p as [pid [[|reason]|]]; simpl;
      rewrite ?(occurrences_cons id' pid), (IH promise id id' H); lia.
Qed.

(** Rejecting a pending promise leaves the fulfilled ones as they are. *)
Lemma fulfilledIds_reject (ps : list AttachPromise) :
  forall (promise : nat) (id : string) (reason : Error),
    ps !! promise = Some (mkPromise id None) ->
    fulfilledIds (<[promise := mkPromise id (Some (Rejected reason))]> ps) = fulfilledIds ps.
Proof.
  induction ps as [|p ps IH]; intros [|promise] id reason H; try discriminate.
  - injection H as ->. reflexivity.
  - simpl in H. simpl. rewrite (IH promise id reason H). reflexivity.
Qed.

(** Settling a promise keeps the id it awaits. *)
Lemma awaited_insert (ps : list AttachPromise) (promise : nat) (id : string)
    (before after : option Settlement) :
  ps !! promise = Some (mkPromise id before) ->
  map awaited (<[promise := mkPromise id after]> ps) = map awaited ps.
Proof.
  intros H. rewrite list_fmap_insert. apply list_insert_id.
  rewrite list_lookup_fmap, H. reflexivity.
Qed.

(** Among promises that await different ids, the id of a promise occurs
    among the fulfilled ones once if the promise is fulfilled, and not at
    all otherwise. *)
Lemma fulfilledIds_once (ps : list AttachPromise) :
  forall (promise : nat) (id : string) (status : option Settlement),
    NoDup (map awaited ps) ->
    ps !! promise = Some (mkPromise id status) ->
    occurrences id (fulfilledIds ps) =
    match status with Some Fulfilled => 1 | _ => 0 end.
Proof.
  induction ps as [|p ps IH]; intros [|promise] id status Hnodup H; try discriminate;
    simpl in Hnodup; apply NoDup_cons in Hnodup as [Hfirst Hrest].
  - injection H as ->. simpl in Hfirst.
    assert (Hnone : occurrences id (fulfilledIds ps) = 0).
    { apply occurrences_absent. intros Hin. apply Hfirst, fulfilledIds_awaited, Hin. }
    destruct status as [[|reason]|]; simpl; rewrite ?occurrences_cons, Hnone;
      rewrite ?decide_True by reflexivity; reflexivity.
  - simpl in H.
    assert (Hother : awaited p <> id).
    { intros Heq. apply Hfirst. rewrite Heq.
      apply (list_elem_of_fmap_2 awaited ps (mkPromise id status)).
      eapply list_elem_of_lookup_2. exact H. }
    destruct p as [pid [[|reason]|]]; simpl in *;
      rewrite ?occurrences_cons, ?decide_False by exact Hother; simpl;
      apply (IH promise id status Hrest H).
Qed.

Lemma idOf_created_fresh (n : nat) : idOf n ∉ map idOf (seq 0 n).
Proof.
  intros Hin. apply list_elem_of_fmap in Hin as (m & Heq & Hm).
  apply (inj pretty) in Heq. subst m.
  apply elem_of_seq in Hm. lia.
Qed.

Lemma idOf_created_NoDup (n : nat) : NoDup (map idOf (seq 0 n)).
Proof. apply (NoDup_fmap_2 idOf). apply NoDup_seq. Qed.

(** *** Runs *)

Lemma attemptedIds_app (events events' : list DomainEvent) :
  attemptedIds (events ++ events') = attemptedIds events ++ attemptedIds events'.
Proof. apply omap_app. Qed.

Lemma completedIds_app (events events' : list DomainEvent) :
  completedIds (events ++ events') = completedIds events ++ completedIds events'.
Proof. apply omap_app. Qed.

Lemma failedIds_app (events events' : list DomainEvent) :
  failedIds (events ++ events') = failedIds events ++ failedIds events'.
Proof. apply omap_app. Qed.

Lemma fulfilledIds_app (ps ps' : list AttachPromise) :
  fulfilledIds (ps ++ ps') = fulfilledIds ps ++ fulfilledIds ps'.
Proof. apply omap_app. Qed.

Lemma consistent_setUp (testInfo : TestInfo) (now : nat) : consistent (setUp testInfo now).
Proof. split; simpl; eauto. Qed.

(** Whatever an action does, it keeps the reporter consistent. *)
Lemma consistent_effect (s s' : State) :
  is_Some (stage s') -> effect s s' -> consistent s -> consistent s'.
Proof.
  intros Hstage Heffect [_ Hids Hattempts Hcompletions Hfailures].
  destruct Heffect as [Ha Hp Hc | description now Ha Hp Hc
                      | promise id now Hpending Ha Hp Hc
                      | promise id reason Hpending Ha Hp Hc];
    split; try exact Hstage; rewrite ?Ha, ?Hp, ?Hc; try assumption.
  - rewrite map_app, seq_S, map_app, Hids. reflexivity.
  - rewrite attemptedIds_app, map_app, Hattempts. reflexivity.
  - intros id'. rewrite completedIds_app, fulfilledIds_app. simpl.
    rewrite !app_nil_r. apply Hcompletions.
  - rewrite failedIds_app, Hfailures. reflexivity.
  - rewrite (awaited_insert _ _ _ None) by exact Hpending. exact Hids.
  - rewrite attemptedIds_app, (awaited_insert _ _ _ None) by exact Hpending.
    simpl. rewrite app_nil_r. exact Hattempts.
  - intros id'. rewrite completedIds_app, occurrences_app.
    rewrite (fulfilledIds_fulfil _ _ _ _ Hpending), Hcompletions. reflexivity.
  - rewrite failedIds_app, Hfailures. reflexivity.
  - rewrite (awaited_insert _ _ _ None) by exact Hpending. exact Hids.
  - rewrite (awaited_insert _ _ _ None) by exact Hpending. exact Hattempts.
  - intros id'. rewrite (fulfilledIds_reject _ _ _ _ Hpending). apply Hcompletions.
Qed.

(** Whatever an action does, the announcements made before it stay, in
    their order, and every promise stays where it is, awaiting its id. *)
Lemma effect_extends (s s' : State) :
  effect s s' ->
  (exists later, announcements s' = announcements s ++ later)
  /\ (forall k p,
        promises s !! k = Some p ->
        exists status, promises s' !! k = Some (mkPromise (awaited p) status)).
Proof.
  intros [Ha Hp Hc | description now Ha Hp Hc
         | promise id now Hpending Ha Hp Hc
         | promise id reason Hpending Ha Hp Hc];
    (split; [rewrite Ha; eauto using app_nil_r |]); try (exists []; now rewrite app_nil_r);
    intros k [pid status] Hk; rewrite Hp; simpl.
  - eauto.
  - exists status. apply lookup_app_l_Some. exact Hk.
  - destruct (decide (promise = k)) as [-> | Hne].
    + rewrite Hpending in Hk. injection Hk as <- <-.
      rewrite list_lookup_insert_eq by (eapply lookup_lt_Some; eauto). eauto.
    + rewrite list_lookup_insert_ne by exact Hne. eauto.
  - destruct (decide (promise = k)) as [-> | Hne].
    + rewrite Hpending in Hk. injection Hk as <- <-.
      rewrite list_lookup_insert_eq by (eapply lookup_lt_Some; eauto). eauto.
    + rewrite list_lookup_insert_ne by exact Hne. eauto.
Qed.

Section Runs.

Variable web : string.

Lemma run_cons (action : Action) (actions : list Action) (s : State) :
  run web (action :: actions) s = run web actions (step web action s).
Proof. reflexivity. Qed.

Lemma consistent_run (actions : list Action) :
  forall s, consistent s -> consistent (run web actions s).
Proof.
  induction actions as [|action actions IH]; intros s Hs; [exact Hs|].
  rewrite run_cons. apply IH.
  destruct (step_effect web action s (has_stage s Hs)) as [Hstage Heffect].
  eapply consistent_effect; eauto.
Qed.

Lemma run_extends (actions : list Action) :
  forall s,
    consistent s ->
    (exists later, announcements (run web actions s) = announcements s ++ later)
    /\ (forall k p,
          promises s !! k = Some p ->
          exists status, promises (run web actions s) !! k = Some (mkPromise (awaited p) status)).
Proof.
  induction actions as [|action actions IH]; intros s Hs.
  - split; [exists []; now rewrite app_nil_r|].
    intros k [id status] Hk. simpl. eauto.
  - rewrite run_cons.
    destruct (step_effect web action s (has_stage s Hs)) as [Hstage Heffect].
    destruct (effect_extends _ _ Heffect) as [[later1 Hlater1] Hpromises1].
    destruct (IH (step web action s) (consistent_effect _ _ Hstage Heffect Hs))
      as [[later2 Hlater2] Hpromises2].
    split.
    + exists (later1 ++ later2). rewrite Hlater2, Hlater1. now rewrite app_assoc.
    + intros k p Hk. destruct (Hpromises1 k p Hk) as [status1 Hk1].
      destruct (Hpromises2 k _ Hk1) as [status2 Hk2]. eauto.
Qed.

(** The reporter never announces the failure of an operation. *)
Lemma no_failure_ever_announced (testInfo : TestInfo) (now : nat) (actions : list Action) :
  failedIds (announcements (run web actions (setUp testInfo now))) = [].
Proof. apply no_failure_announced, consistent_run, consistent_setUp. Qed.

(** A rejected attachment announces nothing: the rejection stays unhandled. *)
Lemma settle_rejected (s : State) (promise : nat) (id : string) (reason : Error) :
  promises s !! promise = Some (mkPromise id None) ->
  announcements (settle promise (Rejected reason) s) = announcements s
  /\ unhandled (settle promise (Rejected reason) s) = unhandled s ++ [ reason ].
Proof. intros H. unfold settle. rewrite H. split; reflexivity. Qed.

End Runs.

(** *** The claims about the reporter *)

(** C2.  The end of a task that the reporter keeps no step for is not
    ignored: on a reporter that was just set up, [notifyOf] throws a
    [TypeError], where the spec has the event ignored.  The completion of an
    unknown operation, at the same reporter, is ignored. *)
Theorem finished_for_unknown_activity_throws :
  notifyOf Scenarios.webModule
    (TaskFinished "a1" Scenarios.login ExecutionSuccessful)
    (setUp Scenarios.noTestInfo 0)
  = (inl (TypeError "Cannot read properties of undefined (reading 'complete')"),
     setUp Scenarios.noTestInfo 0)
  /\ notifyOf Scenarios.webModule
       (InteractionFinished "a1" Scenarios.login (ProblemIndication Scenarios.timedOut))
       (setUp Scenarios.noTestInfo 0)
     = (inl (TypeError "Cannot read properties of undefined (reading 'complete')"),
        setUp Scenarios.noTestInfo 0)
  /\ notifyOf Scenarios.webModule (AsyncOperationCompleted "a1" 1)
       (setUp Scenarios.noTestInfo 0)
     = (inr tt, setUp Scenarios.noTestInfo 0).
Proof. repeat split. Qed.

(** C3.  An attachment that is rejected is not reported: after the photo of
    the scenario was delivered and its attachment was rejected, the only
    announcement is the attempt, no [AsyncOperationFailed] was announced, and
    the rejection is left unhandled.  [notifyOf] itself had returned before,
    without an error. *)
Theorem rejected_attachment_announces_no_failure :
  let s1 := snd (notifyOf Scenarios.webModule Scenarios.photoTaken
                   (setUp Scenarios.noTestInfo 0)) in
  let s2 := settle 0 (Rejected Scenarios.timedOut) s1 in
  fst (notifyOf Scenarios.webModule Scenarios.photoTaken (setUp Scenarios.noTestInfo 0))
  = inr tt
  /\ promises s1 = [ mkPromise "0" None ]
  /\ announcements s2 =
     [ AsyncOperationAttempted "PlaywrightStepReporter"
         "Attaching screenshot of 'Alice logs in'..." "0" 0 ]
  /\ failedIds (announcements s2) = []
  /\ promises s2 = [ mkPromise "0" (Some (Rejected Scenarios.timedOut)) ]
  /\ unhandled s2 = [ Scenarios.timedOut ].
Proof. repeat split. Qed.

(** C4, as the spec has it, does not hold: after a task started and
    finished, its record is still in the [steps] map. *)
Lemma steps_record_not_removed : ~ removedOnTerminal Scenarios.webModule.
Proof.
  intros Hremoved.
  specialize (Hremoved
    (snd (notifyOf Scenarios.webModule (TaskStarts "a1" Scenarios.login)
            (setUp Scenarios.noTestInfo 0)))
    (TaskFinished "a1" Scenarios.login ExecutionSuccessful) "a1" eq_refl).
  assert (Hkept :
    steps (snd (notifyOf Scenarios.webModule
                  (TaskFinished "a1" Scenarios.login ExecutionSuccessful)
                  (snd (notifyOf Scenarios.webModule (TaskStarts "a1" Scenarios.login)
                          (setUp Scenarios.noTestInfo 0))))) !! "a1" = Some 0)
    by reflexivity.
  rewrite Hremoved in Hkept; [discriminate|].
  exists 0. reflexivity.
Qed.

Section Claims.

Variable web : string.

(** C4, amended.  No event delivered to [notifyOf] removes a record from the
    [steps] map.  A record stays under its correlation id, untouched unless
    an event starts something under the same id; the matching terminal
    event completes the step of the record, with the error of the event if
    it has one, and leaves the record in the map. *)
Theorem steps_record_completed_and_kept (s : State) (event : DomainEvent) (id : string)
    (ref : nat) :
  steps s !! id = Some ref ->
  is_Some (steps (snd (notifyOf web event s)) !! id)
  /\ (startedId event <> Some id -> steps (snd (notifyOf web event s)) !! id = Some ref)
  /\ (terminalId event = Some id ->
      fst (notifyOf web event s) = inr tt
      /\ steps (snd (notifyOf web event s)) = steps s
      /\ added (testInfo (snd (notifyOf web event s))) =
         alter (completeStep (terminalResult event)) ref (added (testInfo s))).
Proof.
  intros Hknown.
  pose proof (steps_kept web s event id ref Hknown) as Hkept.
  repeat split.
  - rewrite Hkept. case_decide; eauto.
  - intros Hstart. rewrite Hkept. now rewrite decide_False.
  - rewrite (terminal_known_completes web s event id ref) by assumption. reflexivity.
  - rewrite (terminal_known_completes web s event id ref) by assumption. reflexivity.
  - rewrite (terminal_known_completes web s event id ref) by assumption. reflexivity.
Qed.

(** C6.  At any moment of a run of a reporter that was set up with its
    stage, an artifact that is a photo makes the reporter announce
    [AsyncOperationAttempted] with a correlation id that was created for it
    and that no earlier announcement bears, and leaves a promise awaiting that
    id.  Whatever happens later, that attempt is not announced again, and the
    matching [AsyncOperationCompleted] is announced, after the attempt,
    exactly once if the attachment was fulfilled and not at all if it was
    not; while the attachment is pending, its fulfilment announces it. *)
Theorem photo_attempted_then_completed (testInfo : TestInfo) (start : nat)
    (before after : list Action) (activityId name base64 : string) (timestamp : nat) :
  let s := run web before (setUp testInfo start) in
  let event := ActivityRelatedArtifactGenerated activityId name (Photo base64) timestamp in
  let id := idOf (created s) in
  let promise := length (promises s) in
  let s1 := snd (notifyOf web event s) in
  let s2 := run web after s1 in
  fst (notifyOf web event s) = inr tt
  /\ (exists now,
        announcements s1 =
        announcements s ++
        [ AsyncOperationAttempted constructor_name
            ("Attaching screenshot of '" +:+ name +:+ "'...") id now ])
  /\ (id ∉ attemptedIds (announcements s))
  /\ (id ∉ completedIds (announcements s))
  /\ promises s1 = promises s ++ [ mkPromise id None ]
  /\ exists later status,
       announcements s2 = announcements s1 ++ later
       /\ promises s2 !! promise = Some (mkPromise id status)
       /\ (id ∉ attemptedIds later)
       /\ occurrences id (completedIds later) =
          match status with Some Fulfilled => 1 | _ => 0 end
       /\ (status = None ->
           exists now,
             announcements (settle promise Fulfilled s2) =
             announcements s2 ++ [ AsyncOperationCompleted id now ]).
Proof.
  intros s event id promise s1 s2.
  assert (Hs : consistent s) by apply consistent_run, consistent_setUp.
  destruct (has_stage s Hs) as [stg Hstage].
  pose proof (notifyOf_photo web s stg activityId name base64 timestamp Hstage) as Hphoto.
  assert (Hfresh : id ∉ map awaited (promises s)).
  { rewrite (ids_created s Hs). apply idOf_created_fresh. }
  assert (Hs1 : consistent s1).
  { change s1 with (step web (Notify event) s).
    destruct (step_effect web (Notify event) s (has_stage s Hs)) as [H1 H2].
    eapply consistent_effect; eauto. }
  assert (Hann1 : announcements s1 =
                  announcements s ++
                  [ AsyncOperationAttempted constructor_name
                      ("Attaching screenshot of '" +:+ name +:+ "'...") id
                      (currentTime stg) ]).
  { unfold s1, event. rewrite Hphoto. unfold announcements. simpl. now rewrite Hstage. }
  assert (Hpromises1 : promises s1 = promises s ++ [ mkPromise id None ]).
  { unfold s1, event. rewrite Hphoto. reflexivity. }
  assert (Hnot_completed : occurrences id (completedIds (announcements s)) = 0).
  { rewrite (completions_announced s Hs). apply occurrences_absent.
    intros Hin. apply Hfresh, fulfilledIds_awaited, Hin. }
  split; [unfold event; now rewrite Hphoto|].
  split; [eauto|].
  split; [now rewrite (attempts_announced s Hs)|].
  split; [apply occurrences_zero; exact Hnot_completed|].
  split; [exact Hpromises1|].
  assert (Hs2 : consistent s2) by (apply consistent_run; exact Hs1).
  destruct (run_extends web after s1 Hs1) as [[later Hlater] Hkeeps].
  destruct (Hkeeps promise (mkPromise id None)) as [status Hstatus].
  { rewrite Hpromises1. apply list_lookup_middle. reflexivity. }
  simpl in Hstatus. fold s2 in Hlater, Hstatus.
  exists later, status.
  split; [exact Hlater|]. split; [exact Hstatus|].
  assert (Hnodup2 : NoDup (map awaited (promises s2))).
  { rewrite (ids_created s2 Hs2). apply idOf_created_NoDup. }
  split; [|split].
  - intros Hin.
    pose proof (attempts_announced s2 Hs2) as Hattempts2.
    rewrite Hlater, Hann1, !attemptedIds_app in Hattempts2. simpl in Hattempts2.
    rewrite <- Hattempts2 in Hnodup2.
    apply NoDup_app in Hnodup2 as (Hfront & Hdisjoint & _).
    apply (Hdisjoint id); [|exact Hin].
    apply elem_of_app. right. left.
  - pose proof (completions_announced s2 Hs2 id) as Hcount.
    rewrite (fulfilledIds_once _ promise id status Hnodup2 Hstatus) in Hcount.
    rewrite Hlater, Hann1, !completedIds_app, !occurrences_app in Hcount.
    simpl in Hcount. change (occurrences id []) with 0 in Hcount. lia.
  - intros ->. destruct (has_stage s2 Hs2) as [stg2 Hstage2].
    exists (currentTime stg2). unfold settle. rewrite Hstatus.
    notified. repeat (rewrite Hstage2; simpl).
    unfold announcements. simpl. now rewrite Hstage2.
Qed.

End Claims.

(** The photo of the scenario, attached while the clock moves on. *)
Example photo_attached :
  announcements
    (run Scenarios.webModule
       [ Notify Scenarios.photoTaken; Tick; Settle 0 Fulfilled; Settle 0 Fulfilled ]
       (setUp Scenarios.noTestInfo 0))
  = [ AsyncOperationAttempted "PlaywrightStepReporter"
        "Attaching screenshot of 'Alice logs in'..." "0" 0;
      AsyncOperationCompleted "0" 1 ].
Proof. reflexivity. Qed.

Lemma steps_record_completed_and_kept_witness :
  let s := snd (notifyOf Scenarios.webModule (TaskStarts "a1" Scenarios.login)
                  (setUp Scenarios.noTestInfo 0)) in
  let event := TaskFinished "a1" Scenarios.login (ProblemIndication Scenarios.timedOut) in
  steps s !! "a1" = Some 0
  /\ steps (snd (notifyOf Scenarios.webModule event s)) !! "a1" = Some 0
  /\ added (testInfo (snd (notifyOf Scenarios.webModule event s))) =
     [ mkStep None "serenity-js:task" "Alice logs in" true false
         [ mkStepResult (Some Scenarios.timedOut) ] ].
Proof.
  intros s event.
  pose proof (steps_record_completed_and_kept Scenarios.webModule s event "a1" 0 eq_refl)
    as (_ & Hkept & Hcompleted).
  split; [reflexivity|]. split.
  - apply Hkept. discriminate.
  - destruct (Hcompleted eq_refl) as (_ & _ & Hadded). rewrite Hadded. reflexivity.
Defined.

End ReporterFacts.

(** ** The books of the reporter, over runs *)

Module ReporterRuns.
Import Reporter Bookkeeping ReporterFacts.

Lemma started_has_step (web : string) (event : DomainEvent) (id : string) :
  startedId event = Some id -> is_Some (startedStep web event).
Proof.
  destruct event; simpl; try discriminate; eauto.
  destruct (String.prefix Photographer_name name0); [eauto | discriminate].
Qed.

Lemma started_not_terminal (event : DomainEvent) (id : string) :
  startedId event = Some id -> terminalId event = None.
Proof. destruct event; simpl; try discriminate; reflexivity. Qed.

Section Books.

Variable web : string.

(** An event that starts something: a step is made, and put under the id. *)
Lemma notifyOf_started (event : DomainEvent) (s : State) (id : string)
    (made : TestStepInternal) :
  startedId event = Some id ->
  startedStep web event = Some made ->
  notifyOf web event s =
  (inr tt,
   withSteps (fun m => <[id := length (added (testInfo s))]> m)
     (withTestInfo (fun info =>
        mkTestInfo (added info ++ [ made ]) (attached info) (annotations info)) s)).
Proof.
  intros Hid Hmade.
  destruct event; simpl in Hid, Hmade; try discriminate.
  - injection Hid as ->. injection Hmade as <-. reflexivity.
  - injection Hid as ->. injection Hmade as <-. reflexivity.
  - notified. destruct (String.prefix Photographer_name name0); [|discriminate].
    injection Hid as ->. injection Hmade as <-. reflexivity.
Qed.

(** A terminal event: the step under its id, if there is one, is completed;
    the map is left alone. *)
Lemma notifyOf_terminal (event : DomainEvent) (s : State) (id : string) :
  terminalId event = Some id ->
  snd (notifyOf web event s) =
  match steps s !! id with
  | Some ref =>
      withTestInfo (fun info =>
        mkTestInfo (alter (completeStep (terminalResult event)) ref (added info))
          (attached info) (annotations info)) s
  | None => s
  end.
Proof.
  intros Hterminal.
  destruct (steps s !! id) as [ref|] eqn:Hknown.
  - rewrite (terminal_known_completes web s event id ref) by assumption. reflexivity.
  - destruct event; simpl in Hterminal; try discriminate;
      injection Hterminal as ->; notified;
      try (destruct outcome; notified); rewrite Hknown; reflexivity.
Qed.

(** Any other event leaves the map and the steps alone. *)
Lemma notifyOf_neither (event : DomainEvent) (s : State) :
  startedId event = None ->
  terminalId event = None ->
  steps (snd (notifyOf web event s)) = steps s
  /\ added (testInfo (snd (notifyOf web event s))) = added (testInfo s).
Proof.
  intros Hstarted Hterminal.
  destruct event; simpl in Hstarted, Hterminal; try discriminate.
  - notified. destruct (String.prefix Photographer_name name0); [discriminate|].
    split; reflexivity.
  - destruct artifact; notified; [destruct (stage s)|]; split; reflexivity.
  - destruct tag. split; reflexivity.
  - split; reflexivity.
Qed.

Lemma settle_books (promise : nat) (outcome : Settlement) (s : State) :
  steps (settle promise outcome s) = steps s
  /\ testInfo (settle promise outcome s) = testInfo s.
Proof.
  unfold settle.
  destruct (promises s !! promise) as [[id [already|]]|]; try (split; reflexivity).
  destruct outcome as [|reason]; [|split; reflexivity].
  notified. destruct (stage s); split; reflexivity.
Qed.

Lemma step_booked (action : Action) (s : State) : booked s (step web action s).
Proof.
  destruct action as [event | promise outcome |]; simpl.
  - destruct (startedId event) as [id|] eqn:Hstarted.
    + destruct (started_has_step web event id Hstarted) as [made Hmade].
      rewrite (notifyOf_started event s id made Hstarted Hmade).
      eapply opened; reflexivity.
    + destruct (terminalId event) as [id|] eqn:Hterminal.
      * rewrite (notifyOf_terminal event s id Hterminal).
        unfold CorrelationId in *.
        destruct (steps s !! id) as [ref|] eqn:Hknown.
        -- apply (closed _ _ id ref (terminalResult event)); [exact Hknown | reflexivity..].
        -- apply untouched; reflexivity.
      * destruct (notifyOf_neither event s Hstarted Hterminal).
        apply untouched; assumption.
  - destruct (settle_books promise outcome s) as [Hsteps Hinfo].
    apply untouched; [exact Hsteps | now rewrite Hinfo].
  - apply untouched; reflexivity.
Qed.

Lemma run_snoc (actions : list Action) (action : Action) (s : State) :
  run web (actions ++ [ action ]) s = step web action (run web actions s).
Proof. unfold run. now rewrite foldl_app. Qed.

Lemma run_app (actions actions' : list Action) (s : State) :
  run web (actions ++ actions') s = run web actions' (run web actions s).
Proof. unfold run. now rewrite foldl_app. Qed.

(** *** The steps map refers to the steps of [testInfo] *)

Lemma booked_tracked (s s' : State) : booked s s' -> tracked s -> tracked s'.
Proof.
  intros Hbooked [Hvalid Hapart].
  destruct Hbooked as [Hsteps Hadded | id made Hsteps Hadded | id ref result _ Hsteps Hadded];
    split; rewrite ?Hsteps, ?Hadded.
  - exact Hvalid.
  - exact Hapart.
  - intros id' ref' Hlookup. rewrite length_app. simpl.
    destruct (decide (id = id')) as [-> | Hne].
    + rewrite lookup_insert_eq in Hlookup. injection Hlookup as <-. lia.
    + rewrite lookup_insert_ne in Hlookup by exact Hne.
      apply Hvalid in Hlookup. lia.
  - intros id1 id2 ref' H1 H2.
    destruct (decide (id = id1)) as [E1 | Hne1], (decide (id = id2)) as [E2 | Hne2].
    + congruence.
    + subst id1. rewrite lookup_insert_eq in H1. rewrite lookup_insert_ne in H2 by exact Hne2.
      injection H1 as <-. apply Hvalid in H2. lia.
    + subst id2. rewrite lookup_insert_eq in H2. rewrite lookup_insert_ne in H1 by exact Hne1.
      injection H2 as <-. apply Hvalid in H1. lia.
    + rewrite lookup_insert_ne in H1 by exact Hne1.
      rewrite lookup_insert_ne in H2 by exact Hne2. eapply Hapart; eauto.
  - intros id' ref' Hlookup. rewrite length_alter. eapply Hvalid; eauto.
  - exact Hapart.
Qed.

Lemma tracked_run (actions : list Action) :
  forall s, tracked s -> tracked (run web actions s).
Proof.
  induction actions as [|action actions IH]; intros s Hs; [exact Hs|].
  apply IH. eapply booked_tracked; [apply step_booked | exact Hs].
Qed.

Lemma tracked_new (testInfo : TestInfo) (stage : option Stage) :
  tracked (newReporter testInfo stage).
Proof. split; intros *; simpl; rewrite lookup_empty; discriminate. Qed.

Lemma tracked_from_new (testInfo : TestInfo) (stage : option Stage) (actions : list Action) :
  tracked (run web actions (newReporter testInfo stage)).
Proof. apply tracked_run, tracked_new. Qed.

(** X1.  At any moment of a run of a new reporter, every record of the
    [steps] map refers to a step that [testInfo] holds, and no two
    correlation ids share a step. *)
Theorem steps_refer_to_steps_of_testInfo (testInfo : TestInfo) (stage : option Stage)
    (actions : list Action) :
  tracked (run web actions (newReporter testInfo stage)).
Proof. apply tracked_from_new. Qed.

(** *** Steps only grow *)

Lemma grown_refl (st : TestStepInternal) : grown st st.
Proof. repeat split. exists []. now rewrite app_nil_r. Qed.

Lemma grown_trans (st1 st2 st3 : TestStepInternal) :
  grown st1 st2 -> grown st2 st3 -> grown st1 st3.
Proof.
  intros (H1 & H2 & H3 & H4 & H5 & more1 & H6) (G1 & G2 & G3 & G4 & G5 & more2 & G6).
  repeat split; try congruence.
  exists (more1 ++ more2). rewrite G6, H6. now rewrite app_assoc.
Qed.

Lemma booked_grown (s s' : State) (i : nat) (st : TestStepInternal) :
  booked s s' ->
  added (testInfo s) !! i = Some st ->
  exists st', added (testInfo s') !! i = Some st' /\ grown st st'.
Proof.
  intros [Hsteps Hadded | id made Hsteps Hadded | id ref result _ Hsteps Hadded] Hi;
    rewrite Hadded.
  - eauto using grown_refl.
  - exists st. split; [now apply lookup_app_l_Some | apply grown_refl].
  - destruct (decide (ref = i)) as [-> | Hne].
    + rewrite list_lookup_alter_eq, Hi. eexists. split; [reflexivity|].
      repeat split. simpl. eauto.
    + rewrite list_lookup_alter_ne by exact Hne. eauto using grown_refl.
Qed.

(** X2.  No action takes a step away from [testInfo], renames it, moves it
    or takes back a result: a step that is there stays at its position, with
    its title, category and location, and with the results it was completed
    with as the first of its results. *)
Theorem steps_only_grow (actions : list Action) :
  forall (s : State) (i : nat) (st : TestStepInternal),
    added (testInfo s) !! i = Some st ->
    exists st', added (testInfo (run web actions s)) !! i = Some st' /\ grown st st'.
Proof.
  induction actions as [|action actions IH]; intros s i st Hi.
  - exists st. split; [exact Hi | apply grown_refl].
  - destruct (booked_grown s (step web action s) i st (step_booked action s) Hi)
      as (st1 & Hi1 & Hgrown1).
    destruct (IH (step web action s) i st1 Hi1) as (st2 & Hi2 & Hgrown2).
    exists st2. split; [exact Hi2 | eapply grown_trans; eauto].
Qed.

(** *** What was started can be finished *)

Lemma booked_keys (s s' : State) (id : string) :
  booked s s' -> is_Some (steps s !! id) -> is_Some (steps s' !! id).
Proof.
  intros [Hsteps _ | id' made Hsteps _ | id' ref result _ Hsteps _] Hid; rewrite Hsteps;
    try exact Hid.
  destruct (decide (id' = id)) as [-> | Hne].
  - rewrite lookup_insert_eq. eauto.
  - rewrite lookup_insert_ne by exact Hne. exact Hid.
Qed.

Lemma run_keys (actions : list Action) (id : string) :
  forall s, is_Some (steps s !! id) -> is_Some (steps (run web actions s) !! id).
Proof.
  induction actions as [|action actions IH]; intros s Hid; [exact Hid|].
  apply IH. eapply booked_keys; [apply step_booked | exact Hid].
Qed.

(** X3.  Once an event has started something under a correlation id, a
    terminal event for that id never makes [notifyOf] throw, whatever
    happened in between: the step then kept under the id is completed with
    the result of the event. *)
Theorem started_can_be_finished (testInfo : TestInfo) (stage : option Stage)
    (before after : list Action) (start finish : DomainEvent) (id : string) :
  startedId start = Some id ->
  terminalId finish = Some id ->
  let s := run web (before ++ Notify start :: after) (newReporter testInfo stage) in
  fst (notifyOf web finish s) = inr tt
  /\ exists ref st,
       steps s !! id = Some ref
       /\ added (Reporter.testInfo s) !! ref = Some st
       /\ steps (snd (notifyOf web finish s)) !! id = Some ref
       /\ added (Reporter.testInfo (snd (notifyOf web finish s))) !! ref =
          Some (completeStep (terminalResult finish) st).
Proof.
  intros Hstart Hfinish s.
  assert (Htracked : tracked s) by apply tracked_from_new.
  assert (Hkey : is_Some (steps s !! id)).
  { unfold s. rewrite run_app, run_cons. apply run_keys. simpl.
    destruct (started_has_step web start id Hstart) as [made Hmade].
    rewrite (notifyOf_started start _ id made Hstart Hmade). simpl.
    rewrite lookup_insert_eq. eauto. }
  destruct Hkey as [ref Href].
  destruct (lookup_lt_is_Some_2 (added (Reporter.testInfo s)) ref
              (refs_valid s Htracked id ref Href)) as [st Hst].
  rewrite (terminal_known_completes web s finish id ref Hfinish Href).
  split; [reflexivity|].
  exists ref, st. simpl. repeat split; try assumption.
  now rewrite list_lookup_alter_eq, Hst.
Qed.

(** *** A step collects the results of its terminal events *)

Lemma completed_with (results : list StepResult) :
  forall st,
    foldl (fun st result => completeStep result st) st results =
    mkStep (stepLocation st) (category st) (title st) (canHaveChildren st)
      (forceNoParent st) (completed st ++ results).
Proof.
  induction results as [|result results IH]; intros st; simpl.
  - rewrite app_nil_r. now destruct st.
  - rewrite IH. simpl. now rewrite <- app_assoc.
Qed.

Lemma step_keeps_and_collects (action : Action) (s : State) (id : string) (ref : nat)
    (st : TestStepInternal) :
  tracked s ->
  steps s !! id = Some ref ->
  added (testInfo s) !! ref = Some st ->
  (forall event, action = Notify event -> startedId event <> Some id) ->
  steps (step web action s) !! id = Some ref
  /\ added (testInfo (step web action s)) !! ref =
     Some (foldl (fun st result => completeStep result st) st (resultsFor id [ action ])).
Proof.
  intros Htracked Href Hst Hnot_started.
  destruct action as [event | promise outcome |]; simpl.
  - specialize (Hnot_started event eq_refl).
    case_decide as Hterminal; simpl.
    + rewrite (notifyOf_terminal event s id Hterminal), Href. simpl.
      split; [exact Href|]. now rewrite list_lookup_alter_eq, Hst.
    + destruct (startedId event) as [id'|] eqn:Hstarted.
      * destruct (started_has_step web event id' Hstarted) as [made Hmade].
        rewrite (notifyOf_started event s id' made Hstarted Hmade). simpl.
        assert (Hne : id' <> id).
        { intros Heq. apply Hnot_started. rewrite <- Heq.
          first [exact Hstarted | reflexivity]. }
        rewrite lookup_insert_ne by exact Hne.
        split; [exact Href | now apply lookup_app_l_Some].
      * destruct (terminalId event) as [id'|] eqn:Hother.
        -- rewrite (notifyOf_terminal event s id' Hother).
           unfold CorrelationId in *.
           destruct (steps s !! id') as [ref'|] eqn:Href'; [|now split].
           simpl. split; [exact Href|].
           rewrite list_lookup_alter_ne; [exact Hst|].
           intros ->. apply Hterminal. f_equal.
           eapply (refs_apart s Htracked); eauto.
        -- destruct (notifyOf_neither event s Hstarted Hother) as [Hsteps Hadded].
           rewrite Hsteps, Hadded. now split.
  - destruct (settle_books promise outcome s) as [Hsteps Hinfo].
    rewrite Hsteps, Hinfo. now split.
  - now split.
Qed.

Lemma resultsFor_cons (id : string) (action : Action) (actions : list Action) :
  resultsFor id (action :: actions) = resultsFor id [ action ] ++ resultsFor id actions.
Proof. apply (omap_app _ [ action ] actions). Qed.

Lemma run_keeps_and_collects (actions : list Action) (id : string) (ref : nat) :
  forall (s : State) (st : TestStepInternal),
    tracked s ->
    steps s !! id = Some ref ->
    added (testInfo s) !! ref = Some st ->
    (forall event, Notify event ∈ actions -> startedId event <> Some id) ->
    steps (run web actions s) !! id = Some ref
    /\ added (testInfo (run web actions s)) !! ref =
       Some (foldl (fun st result => completeStep result st) st (resultsFor id actions)).
Proof.
  induction actions as [|action actions IH]; intros s st Htracked Href Hst Hnot_started.
  - now split.
  - destruct (step_keeps_and_collects action s id ref st Htracked Href Hst) as [Href1 Hst1].
    { intros event ->. apply Hnot_started. left. }
    rewrite run_cons, resultsFor_cons, foldl_app.
    apply IH; try assumption.
    + eapply booked_tracked; [apply step_booked | exact Htracked].
    + intros event Hin. apply Hnot_started. right. exact Hin.
Qed.

(** X4.  The step that a start makes is kept under its correlation id until
    another event starts something under the same id; it keeps what
    describes it, and its results are exactly the results of the terminal
    events delivered for that id since, in the order of their delivery, one
    result per event, also when an event comes twice. *)
Theorem step_collects_its_results (testInfo : TestInfo) (stage : option Stage)
    (before after : list Action) (start : DomainEvent) (id : string)
    (made : TestStepInternal) :
  startedId start = Some id ->
  startedStep web start = Some made ->
  (forall event, Notify event ∈ after -> startedId event <> Some id) ->
  let s0 := run web before (newReporter testInfo stage) in
  let s := run web (before ++ Notify start :: after) (newReporter testInfo stage) in
  steps s !! id = Some (length (added (Reporter.testInfo s0)))
  /\ added (Reporter.testInfo s) !! length (added (Reporter.testInfo s0)) =
     Some (mkStep (stepLocation made) (category made) (title made) true false
             (resultsFor id after)).
Proof.
  intros Hstart Hmade Hafter s0 s.
  assert (Hfields : canHaveChildren made = true /\ forceNoParent made = false
                    /\ completed made = []).
  { destruct start; simpl in Hmade; try discriminate;
      try (destruct (String.prefix Photographer_name name0); try discriminate);
      injection Hmade as <-; repeat split. }
  destruct Hfields as (Hchildren & Hparent & Hcompleted).
  assert (Htracked0 : tracked s0) by apply tracked_from_new.
  pose proof (booked_tracked s0 (step web (Notify start) s0)
                (step_booked (Notify start) s0) Htracked0) as Htracked1.
  destruct (run_keeps_and_collects after id (length (added (Reporter.testInfo s0)))
              (step web (Notify start) s0) made Htracked1) as [Hkept Hcollected].
  - simpl. rewrite (notifyOf_started start s0 id made Hstart Hmade). simpl.
    apply lookup_insert_eq.
  - simpl. rewrite (notifyOf_started start s0 id made Hstart Hmade). simpl.
    apply list_lookup_middle. reflexivity.
  - exact Hafter.
  - unfold s. rewrite run_app, run_cons. fold s0. split; [exact Hkept|].
    rewrite Hcollected, completed_with, Hchildren, Hparent, Hcompleted. reflexivity.
Qed.

(** *** When [notifyOf] throws, and what it ignores *)

Ltac known_terminal H :=
  match goal with
  | |- context [notifyOf ?w ?event ?s] =>
      rewrite (terminal_known_completes w s event _ _ eq_refl H)
  end.

(** X5.  [notifyOf] throws in two situations and in no other: the end of
    a task or of an interaction arrives for an id that the [steps] map does
    not have, or a photo arrives at a reporter that has no stage.  What it
    throws then is a [TypeError]. *)
Theorem notifyOf_throws_exactly (event : DomainEvent) (s : State) :
  ((exists e, fst (notifyOf web event s) = inl e) <->
   ((exists id details outcome,
        (event = TaskFinished id details outcome
         \/ event = InteractionFinished id details outcome)
        /\ steps s !! id = None)
    \/ (exists activityId name base64 timestamp,
          event = ActivityRelatedArtifactGenerated activityId name (Photo base64) timestamp
          /\ stage s = None)))
  /\ (forall e, fst (notifyOf web event s) = inl e -> exists message, e = TypeError message).
Proof.
  assert (Hcases :
    forall e, fst (notifyOf web event s) = inl e ->
      (exists message, e = TypeError message)
      /\ ((exists id details outcome,
              (event = TaskFinished id details outcome
               \/ event = InteractionFinished id details outcome)
              /\ steps s !! id = None)
          \/ (exists activityId name base64 timestamp,
                event = ActivityRelatedArtifactGenerated activityId name (Photo base64) timestamp
                /\ stage s = None))).
  { intros e.
    destruct (startedId event) as [id|] eqn:Hstarted.
    { destruct (started_has_step web event id Hstarted) as [made Hmade].
      rewrite (notifyOf_started event s id made Hstarted Hmade). discriminate. }
    destruct event; simpl in Hstarted; try discriminate; unfold CorrelationId in *.
    - destruct (steps s !! activityId) as [ref|] eqn:Hknown.
      + known_terminal Hknown. discriminate.
      + destruct (finished_unknown_throws web s activityId details outcome Hknown)
          as (message & -> & _).
        intros [= <-]. split; [eauto|]. left.
        exists activityId, details, outcome. split; [left; reflexivity | exact Hknown].
    - destruct (steps s !! activityId) as [ref|] eqn:Hknown.
      + known_terminal Hknown. discriminate.
      + destruct (finished_unknown_throws web s activityId details outcome Hknown)
          as (message & _ & ->).
        intros [= <-]. split; [eauto|]. left.
        exists activityId, details, outcome. split; [right; reflexivity | exact Hknown].
    - notified. destruct (String.prefix Photographer_name name0); discriminate.
    - destruct (steps s !! correlationId) as [ref|] eqn:Hknown.
      + known_terminal Hknown. discriminate.
      + destruct (async_terminal_unknown_ignored web s correlationId timestamp
                    (TypeError "") Hknown) as (-> & _). discriminate.
    - destruct (steps s !! correlationId) as [ref|] eqn:Hknown.
      + known_terminal Hknown. discriminate.
      + destruct (async_terminal_unknown_ignored web s correlationId timestamp
                    error0 Hknown) as (_ & _ & ->). discriminate.
    - destruct (steps s !! correlationId) as [ref|] eqn:Hknown.
      + known_terminal Hknown. discriminate.
      + destruct (async_terminal_unknown_ignored web s correlationId timestamp
                    (TypeError "") Hknown) as (_ & -> & _). discriminate.
    - destruct artifact as [base64|other]; [|discriminate].
      destruct (stage s) as [stg|] eqn:Hstage.
      + rewrite (notifyOf_photo web s stg activityId name0 base64 timestamp Hstage).
        discriminate.
      + destruct (notifyOf_photo_unassigned web s activityId name0 base64 timestamp Hstage)
          as (message & ->).
        intros [= <-]. split; [eauto|]. right.
        exists activityId, name0, base64, timestamp. split; reflexivity.
    - destruct tag. discriminate. }
  split; [split|].
  - intros [e He]. apply (Hcases e He).
  - intros [(id & details & outcome & Hevent & Hunknown)
           | (activityId & name & base64 & timestamp & -> & Hstage)].
    + destruct (finished_unknown_throws web s id details outcome Hunknown)
        as (message & H1 & H2).
      destruct Hevent as [-> | ->]; [rewrite H1 | rewrite H2]; eauto.
    + destruct (notifyOf_photo_unassigned web s activityId name base64 timestamp Hstage)
        as (message & ->). eauto.
  - intros e He. apply (Hcases e He).
Qed.

(** X6.  At a reporter whose [steps] map refers to steps of [testInfo],
    [notifyOf] returns leaving everything as it was for exactly these
    events: an attempt whose name does not start with [Photographer]; a
    completion, an abort or a failure for an id that the map does not have;
    an artifact that is not a photo; and any event of another kind. *)
Theorem notifyOf_ignores_exactly (event : DomainEvent) (s : State) :
  tracked s ->
  (notifyOf web event s = (inr tt, s) <-> ignores s event = true).
Proof.
  intros Htracked. split.
  - intros Hsame.
    destruct (ignores s event) eqn:Hignores; [reflexivity | exfalso].
    destruct (startedId event) as [id|] eqn:Hstarted.
    { destruct (started_has_step web event id Hstarted) as [made Hmade].
      rewrite (notifyOf_started event s id made Hstarted Hmade) in Hsame.
      injection Hsame as Hsame.
      apply (f_equal (fun x => length (added (testInfo x)))) in Hsame.
      simpl in Hsame. rewrite length_app in Hsame. simpl in Hsame. lia. }
    destruct (terminalId event) as [id|] eqn:Hterminal; unfold CorrelationId in *.
    { destruct (steps s !! id) as [ref|] eqn:Hknown.
      - rewrite (terminal_known_completes web s event id ref Hterminal Hknown) in Hsame.
        injection Hsame as Hsame.
        destruct (lookup_lt_is_Some_2 (added (testInfo s)) ref
                    (refs_valid s Htracked id ref Hknown)) as [st Hst].
        apply (f_equal (fun x => added (testInfo x) !! ref)) in Hsame.
        simpl in Hsame. rewrite list_lookup_alter_eq, Hst in Hsame.
        injection Hsame as Hsame.
        apply (f_equal (fun x => length (completed x))) in Hsame.
        simpl in Hsame. rewrite length_app in Hsame. simpl in Hsame. lia.
      - destruct event; simpl in Hterminal, Hignores; try discriminate;
          injection Hterminal as ->; unfold CorrelationId in *;
          rewrite ?Hknown in Hignores; try discriminate.
        + destruct (finished_unknown_throws web s id details outcome Hknown)
            as (message & H1 & _).
          rewrite H1 in Hsame. discriminate.
        + destruct (finished_unknown_throws web s id details outcome Hknown)
            as (message & _ & H2).
          rewrite H2 in Hsame. discriminate. }
    destruct event; simpl in Hstarted, Hterminal, Hignores; try discriminate.
    + destruct (String.prefix Photographer_name name0); discriminate.
    + destruct artifact as [base64|other]; [|discriminate].
      destruct (stage s) as [stg|] eqn:Hstage.
      * rewrite (notifyOf_photo web s stg activityId name0 base64 timestamp Hstage) in Hsame.
        injection Hsame as Hsame.
        apply (f_equal created) in Hsame. simpl in Hsame. lia.
      * destruct (notifyOf_photo_unassigned web s activityId name0 base64 timestamp Hstage)
          as (message & H).
        rewrite H in Hsame. discriminate.
    + destruct tag. injection Hsame as Hsame.
      apply (f_equal (fun x => length (annotations (testInfo x)))) in Hsame.
      simpl in Hsame. rewrite length_app in Hsame. simpl in Hsame. lia.
  - intros Hignores.
    destruct event; simpl in Hignores; try discriminate; unfold CorrelationId in *.
    + notified. destruct (String.prefix Photographer_name name0); [discriminate | reflexivity].
    + destruct (steps s !! correlationId) eqn:Hknown; [discriminate|].
      apply (async_terminal_unknown_ignored web s correlationId timestamp (TypeError "") Hknown).
    + destruct (steps s !! correlationId) eqn:Hknown; [discriminate|].
      apply (async_terminal_unknown_ignored web s correlationId timestamp error0 Hknown).
    + destruct (steps s !! correlationId) eqn:Hknown; [discriminate|].
      apply (async_terminal_unknown_ignored web s correlationId timestamp (TypeError "") Hknown).
    + destruct artifact; [discriminate | reflexivity].
    + reflexivity.
Qed.

(** *** Tags *)

(** X7.  [notifyOf] tests an event against the [SceneTagged] that the
    reporter imports from [@serenity-js/core/src/events].  Instances of that
    class, delivered one after another, become annotations of [testInfo],
    one each, of the type of the tag and described by its name, after the
    annotations that were there and in the order of delivery, and nothing
    else of the reporter changes.  A [SceneTagged] of
    [@serenity-js/core/lib/events], the module of all the other event
    classes, is not an instance of that class: delivering such events
    leaves the reporter as it is, and no annotation is pushed. *)
Theorem scene_tags_of_the_tested_class_become_annotations (tags : list Tag) :
  forall s,
    run web (map (fun tag => Notify (SceneTagged tag)) tags) s =
    withTestInfo (fun info =>
      mkTestInfo (added info) (attached info)
        (annotations info ++ map annotationOf tags)) s
    /\ run web (map (fun tag => Notify (libSceneTagged tag)) tags) s = s.
Proof.
  induction tags as [|tag tags IH]; intros s.
  - split; [|reflexivity].
    destruct s as [? [? ? ?] ? ? ? ?]. unfold withTestInfo. simpl. now rewrite app_nil_r.
  - split.
    + simpl map. rewrite run_cons. rewrite (proj1 (IH _)).
      destruct tag, s as [? [? ? ?] ? ? ? ?]. unfold withTestInfo. simpl.
      now rewrite <- app_assoc.
    + simpl map. rewrite run_cons. apply (proj2 (IH _)).
Qed.

(** *** The stage *)

(** X8.  A photo at a reporter that was not given a stage makes [notifyOf]
    throw after the correlation id was created and before anything is
    attached: nothing but the count of ids changes.  Once [assignedTo] gave
    the reporter a stage, the same photo is attached, and its attempt is
    announced to that stage, at the time of that stage. *)
Theorem photo_needs_a_stage (s : State) (stg : Stage) (activityId name base64 : string)
    (timestamp : nat) :
  stage s = None ->
  let photo := ActivityRelatedArtifactGenerated activityId name (Photo base64) timestamp in
  (exists message, notifyOf web photo s = (inl (TypeError message), withCreated S s))
  /\ fst (notifyOf web photo (assignedTo stg s)) = inr tt
  /\ announcements (snd (notifyOf web photo (assignedTo stg s))) =
     announced stg ++
     [ AsyncOperationAttempted constructor_name
         ("Attaching screenshot of '" +:+ name +:+ "'...")
         (idOf (created s)) (currentTime stg) ]
  /\ attached (testInfo (snd (notifyOf web photo (assignedTo stg s)))) =
     attached (testInfo s) ++ [ mkAttachment name base64 "image/png" ]
  /\ steps (snd (notifyOf web photo (assignedTo stg s))) = steps s.
Proof.
  intros Hstage photo.
  split; [apply notifyOf_photo_unassigned; exact Hstage|].
  unfold photo.
  rewrite (notifyOf_photo web (assignedTo stg s) stg activityId name base64 timestamp eq_refl).
  repeat split.
Qed.

(** *** Attachments and announcements *)

Lemma attemptedDescriptions_app (events events' : list DomainEvent) :
  attemptedDescriptions (events ++ events') =
  attemptedDescriptions events ++ attemptedDescriptions events'.
Proof. apply omap_app. Qed.

Lemma notifyOf_attached (event : DomainEvent) (s : State) :
  (forall activityId name base64 timestamp,
      event <> ActivityRelatedArtifactGenerated activityId name (Photo base64) timestamp) ->
  attached (testInfo (snd (notifyOf web event s))) = attached (testInfo s).
Proof.
  intros Hother.
  destruct event; notified;
    try (destruct outcome; notified);
    repeat match goal with
           | |- context [steps s !! ?key] => destruct (steps s !! key); notified
           end;
    try match goal with
        | |- context [String.prefix ?p ?n] => destruct (String.prefix p n); notified
        end;
    try (destruct tag; notified);
    try reflexivity.
  destruct artifact; [|reflexivity].
  exfalso. eapply Hother. reflexivity.
Qed.

(** What an action does to the attachments, to the attempts announced and
    to the ids, at a reporter that has its stage: nothing, or one of each. *)
Lemma step_attaches (action : Action) (s : State) :
  is_Some (stage s) ->
  (attached (testInfo (step web action s)) = attached (testInfo s)
   /\ attemptedDescriptions (announcements (step web action s)) =
      attemptedDescriptions (announcements s)
   /\ created (step web action s) = created s)
  \/ (exists attachment,
        isPicture attachment
        /\ attached (testInfo (step web action s)) = attached (testInfo s) ++ [ attachment ]
        /\ attemptedDescriptions (announcements (step web action s)) =
           attemptedDescriptions (announcements s) ++ [ announcedAs attachment ]
        /\ created (step web action s) = S (created s)).
Proof.
  intros [stg Hstage].
  destruct action as [event | promise outcome |]; simpl.
  - assert (Hphoto :
      (exists activityId name base64 timestamp,
          event = ActivityRelatedArtifactGenerated activityId name (Photo base64) timestamp)
      \/ (forall activityId name base64 timestamp,
            event <> ActivityRelatedArtifactGenerated activityId name (Photo base64) timestamp)).
    { destruct event; try (right; discriminate).
      destruct artifact; [left; eauto | right; discriminate]. }
    destruct Hphoto as [(activityId & name & base64 & timestamp & ->) | Hother].
    + right. exists (mkAttachment name base64 "image/png").
      rewrite (notifyOf_photo web s stg) by exact Hstage.
      unfold announcements. simpl. rewrite Hstage, attemptedDescriptions_app.
      repeat split.
    + left. destruct (notifyOf_quiet web event s Hother) as (Hs & _ & Hc & _).
      rewrite (notifyOf_attached event s Hother), (announcements_stage _ _ Hs), Hc.
      repeat split.
  - left. destruct (settle_books promise outcome s) as [_ Hinfo]. rewrite Hinfo.
    unfold settle.
    destruct (promises s !! promise) as [[id [already|]]|]; try (repeat split; reflexivity).
    destruct outcome as [|reason]; [|repeat split; reflexivity].
    notified. repeat (rewrite Hstage; simpl). unfold announcements. simpl.
    rewrite Hstage. simpl. rewrite attemptedDescriptions_app. simpl.
    rewrite app_nil_r. repeat split.
  - left. unfold tick, announcements. simpl. rewrite Hstage. repeat split.
Qed.

(** X9.  At any moment of a run of a reporter set up with its stage, the
    pictures handed to [testInfo.attach] since are as many as the
    correlation ids created, each of content type [image/png], and the
    attempts announced are theirs, one per picture, in the same order, each
    described by the name the picture was attached under. *)
Theorem attached_pictures_are_announced (testInfo : TestInfo) (now : nat)
    (actions : list Action) :
  let s := run web actions (setUp testInfo now) in
  exists pictures,
    attached (Reporter.testInfo s) = attached testInfo ++ pictures
    /\ Forall isPicture pictures
    /\ attemptedDescriptions (announcements s) = map announcedAs pictures
    /\ length pictures = created s.
Proof.
  set (holds := fun s : State =>
    exists pictures,
      attached (Reporter.testInfo s) = attached testInfo ++ pictures
      /\ Forall isPicture pictures
      /\ attemptedDescriptions (announcements s) = map announcedAs pictures
      /\ length pictures = created s).
  assert (Hrun : forall acts s, consistent s -> holds s -> holds (run web acts s)).
  { induction acts as [|action acts IH]; intros s Hs Hholds; [exact Hholds|].
    rewrite run_cons.
    destruct (step_effect web action s (has_stage s Hs)) as [Hstage Heffect].
    apply IH; [eapply consistent_effect; eauto|].
    destruct Hholds as (pictures & Hattached & Hpictures & Hannounced & Hlength).
    destruct (step_attaches action s (has_stage s Hs))
      as [(Ha & Hd & Hc) | (attachment & Hpicture & Ha & Hd & Hc)].
    - exists pictures. rewrite Ha, Hd, Hc. repeat split; assumption.
    - exists (pictures ++ [ attachment ]). rewrite Ha, Hd, Hc, Hattached, Hannounced.
      repeat split.
      + now rewrite app_assoc.
      + apply Forall_app. split; [exact Hpictures | constructor; [exact Hpicture | constructor]].
      + now rewrite map_app.
      + rewrite length_app. simpl. lia. }
  apply Hrun; [apply consistent_setUp|].
  exists []. simpl. rewrite app_nil_r. repeat split. constructor.
Qed.

(** X10.  Whatever a reporter set up with its stage announces is an
    [AsyncOperationAttempted] in its own name or an
    [AsyncOperationCompleted]: it announces no other event. *)
Theorem announces_only_its_own (testInfo : TestInfo) (now : nat) (actions : list Action) :
  Forall own (announcements (run web actions (setUp testInfo now))).
Proof.
  assert (Hrun : forall acts s,
             consistent s -> Forall own (announcements s) ->
             Forall own (announcements (run web acts s))).
  { induction acts as [|action acts IH]; intros s Hs Hown; [exact Hown|].
    rewrite run_cons.
    destruct (step_effect web action s (has_stage s Hs)) as [Hstage Heffect].
    apply IH; [eapply consistent_effect; eauto|].
    destruct Heffect as [Ha _ _ | description t Ha _ _ | promise id t _ Ha _ _
                        | promise id reason _ Ha _ _]; rewrite Ha; try exact Hown.
    - apply Forall_app. split; [exact Hown|]. constructor; [|constructor]. left. eauto.
    - apply Forall_app. split; [exact Hown|]. constructor; [|constructor]. right. eauto. }
  apply Hrun; [apply consistent_setUp | constructor].
Qed.

(** *** Rejected attachments *)

Lemma effect_settled (s s' : State) (k : nat) (id : string) (outcome : Settlement) :
  effect s s' ->
  promises s !! k = Some (mkPromise id (Some outcome)) ->
  promises s' !! k = Some (mkPromise id (Some outcome)).
Proof.
  intros [_ Hp _ | description t _ Hp _ | promise id' t Hpending _ Hp _
         | promise id' reason Hpending _ Hp _] Hk; rewrite Hp.
  - exact Hk.
  - now apply lookup_app_l_Some.
  - rewrite list_lookup_insert_ne; [exact Hk|]. intros ->. congruence.
  - rewrite list_lookup_insert_ne; [exact Hk|]. intros ->. congruence.
Qed.

Lemma step_unhandled (action : Action) (s : State) :
  exists more, unhandled (step web action s) = unhandled s ++ more.
Proof.
  destruct action as [event | promise outcome |]; simpl.
  - exists []. rewrite app_nil_r.
    assert (Hphoto :
      (exists activityId name base64 timestamp,
          event = ActivityRelatedArtifactGenerated activityId name (Photo base64) timestamp)
      \/ (forall activityId name base64 timestamp,
            event <> ActivityRelatedArtifactGenerated activityId name (Photo base64) timestamp)).
    { destruct event; try (right; discriminate).
      destruct artifact; [left; eauto | right; discriminate]. }
    destruct Hphoto as [(activityId & name & base64 & timestamp & ->) | Hother].
    + notified. destruct (stage s); reflexivity.
    + apply (notifyOf_quiet web event s Hother).
  - unfold settle.
    destruct (promises s !! promise) as [[id [already|]]|];
      try (exists []; now rewrite app_nil_r).
    destruct outcome as [|reason]; [|eexists; reflexivity].
    notified. destruct (stage s); [exists []; now rewrite app_nil_r | eexists; reflexivity].
  - exists []. now rewrite app_nil_r.
Qed.

(** X11.  Once the attachment behind a pending promise is rejected, at a
    reporter set up with its stage, its attempt stays unmatched whatever
    happens later: the promise stays rejected, neither a completion nor a
    failure is ever announced for its correlation id, and the reason of the
    rejection stays among the rejections that nothing handled. *)
Theorem rejected_attachment_stays_unmatched (testInfo : TestInfo) (now : nat)
    (before after : list Action) (promise : nat) (id : string) (reason : Error) :
  let s := run web before (setUp testInfo now) in
  promises s !! promise = Some (mkPromise id None) ->
  let s' := run web (Settle promise (Rejected reason) :: after) s in
  promises s' !! promise = Some (mkPromise id (Some (Rejected reason)))
  /\ (id ∉ completedIds (announcements s'))
  /\ (id ∉ failedIds (announcements s'))
  /\ (reason ∈ unhandled s').
Proof.
  intros s Hpending s'.
  assert (Hs : consistent s) by apply consistent_run, consistent_setUp.
  set (s1 := step web (Settle promise (Rejected reason)) s).
  assert (Hs1 : consistent s1).
  { destruct (step_effect web (Settle promise (Rejected reason)) s (has_stage s Hs)).
    eapply consistent_effect; eauto. }
  assert (Hrejected1 : promises s1 !! promise = Some (mkPromise id (Some (Rejected reason)))).
  { unfold s1. simpl. unfold settle. rewrite Hpending. simpl.
    apply list_lookup_insert_eq. eapply lookup_lt_Some; eauto. }
  assert (Hunhandled1 : reason ∈ unhandled s1).
  { unfold s1. simpl. unfold settle. rewrite Hpending. simpl.
    apply elem_of_app. right. left. }
  assert (Hlater : forall acts s2,
             consistent s2 ->
             promises s2 !! promise = Some (mkPromise id (Some (Rejected reason))) ->
             reason ∈ unhandled s2 ->
             promises (run web acts s2) !! promise =
               Some (mkPromise id (Some (Rejected reason)))
             /\ reason ∈ unhandled (run web acts s2)).
  { induction acts as [|action acts IH]; intros s2 Hs2 Hp Hu; [now split|].
    rewrite run_cons.
    destruct (step_effect web action s2 (has_stage s2 Hs2)) as [Hstage Heffect].
    apply IH.
    - eapply consistent_effect; eauto.
    - eapply effect_settled; eauto.
    - destruct (step_unhandled action s2) as [more ->]. apply elem_of_app. now left. }
  assert (Hs' : consistent s').
  { unfold s'. rewrite run_cons. apply consistent_run. exact Hs1. }
  destruct (Hlater after s1 Hs1 Hrejected1 Hunhandled1) as [Hrejected Hunhandled].
  unfold s'. rewrite run_cons. fold s1.
  unfold s' in Hs'. rewrite run_cons in Hs'. fold s1 in Hs'.
  split; [exact Hrejected|]. split; [|split; [|exact Hunhandled]].
  - apply occurrences_zero.
    rewrite (completions_announced _ Hs').
    rewrite (fulfilledIds_once _ promise id (Some (Rejected reason))); [reflexivity| |exact Hrejected].
    rewrite (ids_created _ Hs'). apply idOf_created_NoDup.
  - rewrite (no_failure_announced _ Hs'). apply not_elem_of_nil.
Qed.

End Books.

Lemma steps_only_grow_witness :
  let s := snd (notifyOf Scenarios.webModule (TaskStarts "a1" Scenarios.login)
                  (setUp Scenarios.noTestInfo 0)) in
  let actions :=
    [ Notify (TaskFinished "a1" Scenarios.login (ProblemIndication Scenarios.timedOut)); Tick ] in
  added (testInfo s) !! 0 = Some (stepFor Scenarios.login "task")
  /\ exists st',
       added (testInfo (run Scenarios.webModule actions s)) !! 0 = Some st'
       /\ grown (stepFor Scenarios.login "task") st'.
Proof.
  intros s actions. split; [reflexivity|].
  apply (steps_only_grow Scenarios.webModule actions s 0 (stepFor Scenarios.login "task")).
  reflexivity.
Defined.

Lemma started_can_be_finished_witness :
  let s := run Scenarios.webModule
             ([] ++ Notify (TaskStarts "a1" Scenarios.login) :: [ Notify Scenarios.photoTaken ])
             (newReporter Scenarios.noTestInfo None) in
  fst (notifyOf Scenarios.webModule
         (TaskFinished "a1" Scenarios.login (ProblemIndication Scenarios.timedOut)) s)
  = inr tt.
Proof.
  apply (started_can_be_finished Scenarios.webModule Scenarios.noTestInfo None []
           [ Notify Scenarios.photoTaken ] (TaskStarts "a1" Scenarios.login)
           (TaskFinished "a1" Scenarios.login (ProblemIndication Scenarios.timedOut)) "a1").
  - reflexivity.
  - reflexivity.
Defined.

Lemma step_collects_its_results_witness :
  let after :=
    [ Notify (AsyncOperationCompleted "a2" 1);
      Notify (TaskFinished "a1" Scenarios.login ExecutionSuccessful);
      Notify (TaskFinished "a1" Scenarios.login (ProblemIndication Scenarios.timedOut)) ] in
  let s := run Scenarios.webModule
             ([] ++ Notify (TaskStarts "a1" Scenarios.login) :: after)
             (newReporter Scenarios.noTestInfo None) in
  steps s !! "a1" = Some 0
  /\ added (testInfo s) !! 0 =
     Some (mkStep None "serenity-js:task" "Alice logs in" true false
             [ mkStepResult None; mkStepResult (Some Scenarios.timedOut) ]).
Proof.
  intros after s.
  apply (step_collects_its_results Scenarios.webModule Scenarios.noTestInfo None [] after
           (TaskStarts "a1" Scenarios.login) "a1" (stepFor Scenarios.login "task")).
  - reflexivity.
  - reflexivity.
  - intros event Hin.
    apply elem_of_cons in Hin as [[= ->] | Hin]; [discriminate|].
    apply elem_of_cons in Hin as [[= ->] | Hin]; [discriminate|].
    apply elem_of_cons in Hin as [[= ->] | Hin]; [discriminate|].
    apply elem_of_nil in Hin. destruct Hin.
Defined.

Lemma notifyOf_ignores_exactly_witness :
  notifyOf Scenarios.webModule (AsyncOperationFailed Scenarios.timedOut "a7" 2)
    (setUp Scenarios.noTestInfo 0)
  = (inr tt, setUp Scenarios.noTestInfo 0).
Proof.
  apply (notifyOf_ignores_exactly Scenarios.webModule
           (AsyncOperationFailed Scenarios.timedOut "a7" 2) (setUp Scenarios.noTestInfo 0)).
  - split; intros *; simpl; rewrite lookup_empty; discriminate.
  - reflexivity.
Defined.

Lemma photo_needs_a_stage_witness :
  stage (newReporter Scenarios.noTestInfo None) = None
  /\ fst (notifyOf Scenarios.webModule
            (ActivityRelatedArtifactGenerated "a1" "Alice logs in" (Photo "iVBORw0KGgo=") 3)
            (assignedTo (mkStage 5 []) (newReporter Scenarios.noTestInfo None)))
     = inr tt.
Proof.
  split; [reflexivity|].
  apply (photo_needs_a_stage Scenarios.webModule (newReporter Scenarios.noTestInfo None)
           (mkStage 5 []) "a1" "Alice logs in" "iVBORw0KGgo=" 3).
  reflexivity.
Defined.

Lemma rejected_attachment_stays_unmatched_witness :
  let s := run Scenarios.webModule [ Notify Scenarios.photoTaken ]
             (setUp Scenarios.noTestInfo 0) in
  let s' := run Scenarios.webModule
              (Settle 0 (Rejected Scenarios.timedOut) :: [ Tick; Settle 0 Fulfilled ]) s in
  promises s !! 0 = Some (mkPromise "0" None)
  /\ promises s' !! 0 = Some (mkPromise "0" (Some (Rejected Scenarios.timedOut))).
Proof.
  intros s s'. split; [reflexivity|].
  apply (rejected_attachment_stays_unmatched Scenarios.webModule Scenarios.noTestInfo 0
           [ Notify Scenarios.photoTaken ] [ Tick; Settle 0 Fulfilled ] 0 "0"
           Scenarios.timedOut).
  reflexivity.
Defined.

End ReporterRuns.

(** ** Descriptions, at the edges *)

Module DescriptionEdges.
Import Abilities Description DescriptionFacts.

Lemma append_step (c : ascii) (s t : string) : String c s +:+ t = String c (s +:+ t).
Proof. reflexivity. Qed.

Lemma append_assoc (s t u : string) : (s +:+ t) +:+ u = s +:+ (t +:+ u).
Proof.
  induction s as [|c s IH]; [reflexivity|].
  rewrite !append_step. f_equal. exact IH.
Qed.

Lemma segments_no_parameters (templates : list string) : segments templates [] = templates.
Proof.
  induction templates as [|t ts IH]; [reflexivity|].
  rewrite segments_last. f_equal. exact IH.
Qed.

(** X12.  Without placeholders the description is the literal segments,
    joined; without literal segments it is empty, whatever the placeholders. *)
Theorem interpolate_without_placeholders (templates parameters : list string) :
  interpolate templates [] = String.concat "" templates
  /\ interpolate [] parameters = "".
Proof.
  split; [|reflexivity].
  unfold interpolate. now rewrite segments_no_parameters.
Qed.

Lemma interposed_take (templates : list string) :
  forall descriptions,
    interposed templates descriptions =
    interposed templates (take (length templates) descriptions).
Proof.
  induction templates as [|t ts IH]; intros [|d ds]; try reflexivity.
  simpl. now rewrite <- IH.
Qed.

(** X13.  [interpolate] uses as many parameters as there are literal
    segments and no more: parameters beyond them are left out of the
    description. *)
Theorem interpolate_leaves_out_surplus (templates parameters : list string) :
  interpolate templates parameters =
  interpolate templates (take (length templates) parameters).
Proof. rewrite !interpolate_interposed. apply interposed_take. Qed.

Lemma interposed_last (templates : list string) :
  forall (descriptions : list string) (template d : string),
    length templates = length descriptions ->
    interposed (templates ++ [ template ]) (descriptions ++ [ d ]) =
    interposed (templates ++ [ template ]) descriptions +:+ d.
Proof.
  induction templates as [|t ts IH]; intros [|d' ds] template d Hlen; try discriminate.
  - simpl. now rewrite !append_empty_r.
  - simpl in Hlen. injection Hlen as Hlen. simpl.
    rewrite (IH ds template d Hlen). now rewrite !append_assoc.
Qed.

(** X14.  A parameter that follows the last literal segment is not left
    out: with as many parameters as literal segments, the last parameter
    comes at the end of the description, after the last literal segment. *)
Theorem interpolate_appends_last_parameter (templates parameters : list string)
    (template parameter : string) :
  length templates = length parameters ->
  interpolate (templates ++ [ template ]) (parameters ++ [ parameter ]) =
  interpolate (templates ++ [ template ]) parameters +:+ parameter.
Proof. intros Hlen. rewrite !interpolate_interposed. now apply interposed_last. Qed.

Lemma interpolate_appends_last_parameter_witness :
  interpolate ([ "#actor dials " ] ++ [ " now" ]) ([ "555" ] ++ [ "!" ])
  = interpolate ([ "#actor dials " ] ++ [ " now" ]) [ "555" ] +:+ "!".
Proof.
  apply (interpolate_appends_last_parameter [ "#actor dials " ] [ "555" ] " now" "!").
  reflexivity.
Defined.

Section Resolving.

Context {W : Type}.
Variable formattedValue :
  option DescriptionFormattingOptions -> Placeholder W -> QuestionAdapter W.

Lemma asyncMap_rejects {A B : Type} (f : A -> M W B) (before : list A) :
  forall (item : A) (after : list A) (w w1 w2 : W) (results : list B) (e : Error),
    asyncMap before f w = (inr results, w1) ->
    f item w1 = (inl e, w2) ->
    asyncMap (before ++ item :: after) f w = (inl e, w2).
Proof.
  induction before as [|x before IH]; intros item after w w1 w2 results e Hbefore Hitem.
  - inversion Hbefore; subst. simpl app. rewrite asyncMap_cons, Hitem. reflexivity.
  - simpl app. rewrite asyncMap_cons. rewrite asyncMap_cons in Hbefore.
    destruct (f x w) as [[e'|r] w'] eqn:Hx; [discriminate|].
    destruct (asyncMap before f w') as [[e'|rs] w''] eqn:Hrest; [discriminate|].
    inversion Hbefore; subst.
    rewrite (IH item after w' w1 w2 rs e Hrest Hitem). reflexivity.
Qed.

(** X15.  When the placeholders before one resolve and that one is
    rejected, the description of the question is rejected with the same
    error, and no later placeholder is resolved: the world is left as the
    rejected placeholder left it. *)
Theorem rejected_placeholder_rejects_description (templates : list string)
    (before after : list (Placeholder W)) (parameter : Placeholder W)
    (options : option DescriptionFormattingOptions) (question : QuestionAdapter W)
    (actor : Actor W) (w w1 w2 : W) (descriptions : list string) (e : Error) :
  builtByThe formattedValue templates (before ++ parameter :: after) options question ->
  asyncMap before (describeParameter formattedValue options actor) w = (inr descriptions, w1) ->
  describeParameter formattedValue options actor parameter w1 = (inl e, w2) ->
  body question actor w = (inl e, w2).
Proof.
  intros Hbuilt Hbefore Hrejected.
  apply builtByThe_templateToQuestion in Hbuilt. subst question.
  rewrite body_templateToQuestion.
  now rewrite (asyncMap_rejects _ before parameter after w w1 w2 descriptions e Hbefore Hrejected).
Qed.

End Resolving.

(** X16.  The description that a question resolves for an actor, the body
    that [templateToQuestion] hands to [Question.about], is the same
    whatever the formatting options and whatever the formatting of values
    does, when all its placeholders are instances of [Describable]: the body
    asks such a placeholder for [describedBy(actor)] only.  The static
    description of the question is another matter: it is made when the
    question is built, from [Question.formattedValue(options).of(parameter)]
    of every parameter, the instances of [Describable] among them. *)
Theorem describables_are_described_not_formatted {W : Type}
    (formattedValue formattedValue' :
       option DescriptionFormattingOptions -> Placeholder W -> QuestionAdapter W)
    (templates : list string) (parameters : list (Placeholder W))
    (options options' : option DescriptionFormattingOptions) (actor : Actor W) :
  Forall (fun parameter => exists describedBy, parameter = Describable describedBy) parameters ->
  body (templateToQuestion formattedValue templates parameters options) actor =
  body (templateToQuestion formattedValue' templates parameters options') actor
  /\ description (templateToQuestion formattedValue templates parameters options) =
     interpolate templates
       (map (fun parameter => description (formattedValue options parameter)) parameters).
Proof.
  intros Hdescribable. split; [|reflexivity]. simpl.
  rewrite (asyncMap_ext (describeParameter formattedValue options actor)
             (describeParameter formattedValue' options' actor) parameters); [reflexivity|].
  intros parameter Hin.
  rewrite Forall_forall in Hdescribable.
  destruct (Hdescribable parameter Hin) as [describedBy ->]. reflexivity.
Qed.

(** Two questions of the same placeholder, a [Describable], built with and
    without options: described alike by an actor, but not alike in their
    static description, when the formatted values are not. *)
Remark static_description_is_formatted :
  let formattedValue : option DescriptionFormattingOptions ->
                       Placeholder Scenarios.Asked -> QuestionAdapter Scenarios.Asked :=
    fun options _ =>
      about (match options with Some _ => "a trimmed value" | None => "a value" end)
        (fun _ => ret "") in
  let trimmed :=
    templateToQuestion formattedValue [ "#actor dials "; "" ] [ Scenarios.phoneNumber ]
      (Some Scenarios.maxLength10) in
  let full :=
    templateToQuestion formattedValue [ "#actor dials "; "" ] [ Scenarios.phoneNumber ] None in
  body trimmed Scenarios.alice 0 = body full Scenarios.alice 0
  /\ description trimmed = "#actor dials a trimmed value"
  /\ description full = "#actor dials a value".
Proof. repeat split. Qed.

Lemma rejected_placeholder_rejects_description_witness :
  body (templateToQuestion (specFormattedValue Scenarios.inFull) Scenarios.dials
          ([ Scenarios.counting ]
           ++ Promised (inl (OtherError "no number")) :: [ Scenarios.counting ])
          None)
       Scenarios.alice 0
  = (inl (OtherError "no number"), 1).
Proof.
  apply (rejected_placeholder_rejects_description (specFormattedValue Scenarios.inFull)
           Scenarios.dials [ Scenarios.counting ] [ Scenarios.counting ]
           (Promised (inl (OtherError "no number"))) None _ Scenarios.alice 0 1 1 [ "0" ]).
  - apply builtDirectly. reflexivity.
  - reflexivity.
  - reflexivity.
Defined.

Lemma describables_are_described_not_formatted_witness :
  body (templateToQuestion (specFormattedValue Scenarios.inFull) Scenarios.dials
          [ Scenarios.phoneNumber; Scenarios.counting ] (Some Scenarios.maxLength10))
       Scenarios.alice
  = body (templateToQuestion (specFormattedValue (fun _ _ => "")) Scenarios.dials
            [ Scenarios.phoneNumber; Scenarios.counting ] None)
         Scenarios.alice.
Proof.
  apply (describables_are_described_not_formatted (specFormattedValue Scenarios.inFull)
           (specFormattedValue (fun _ _ => "")) Scenarios.dials
           [ Scenarios.phoneNumber; Scenarios.counting ] (Some Scenarios.maxLength10) None
           Scenarios.alice).
  repeat constructor; eexists; reflexivity.
Defined.

End DescriptionEdges.

(** ** The photographer, when something fails *)

Module PhotographyEdges.
Import Abilities Photography.

Lemma append_length (s t : string) :
  String.length (s +:+ t) = String.length s + String.length t.
Proof.
  induction s as [|c s IH]; [reflexivity|].
  change (S (String.length (s +:+ t)) = S (String.length s + String.length t)).
  now rewrite IH.
Qed.

Lemma append_cancel_r (s s' t : string) : s +:+ t = s' +:+ t -> s = s'.
Proof.
  revert s'. induction s as [|c s IH]; intros [|c' s'] H.
  - reflexivity.
  - apply (f_equal String.length) in H. rewrite !append_length in H. simpl in H. lia.
  - apply (f_equal String.length) in H. rewrite !append_length in H. simpl in H. lia.
  - change (String c (s +:+ t) = String c' (s' +:+ t)) in H.
    injection H as -> H. f_equal. now apply IH.
Qed.

Section Failing.

Context {W Step : Type}.
Variable hashStr : string -> string.

(** X17.  Two screenshots are stored under the same file name exactly when
    [Md5.hashStr] gives them the same hash: the name tells apart whatever
    the hash tells apart, and nothing else. *)
Theorem same_filename_same_hash (data data' : string) :
  filenameFor hashStr data = filenameFor hashStr data' <-> hashStr data = hashStr data'.
Proof.
  unfold filenameFor. split.
  - apply append_cancel_r.
  - now intros ->.
Qed.

(** X18.  [takeAPictureOf] fails with the first failure on its way: the
    error of the ability lookup, before anything else happens; or the
    rejection of the screenshot, the outlet not being asked to store
    anything; or the rejection of the outlet.  In none of these cases is a
    [Screenshot] returned. *)
Theorem takeAPictureOf_fails_with_first_failure (this : Photographer W) (actor : Actor W)
    (step : Step) (w : W) :
  (forall e,
      BrowseTheWeb_as actor = inl e ->
      takeAPictureOf hashStr this actor step w = (inl e, w))
  /\ (forall browser e w1,
        BrowseTheWeb_as actor = inr browser ->
        takeScreenshot browser w = (inl e, w1) ->
        takeAPictureOf hashStr this actor step w = (inl e, w1))
  /\ (forall browser data e w1 w2,
        BrowseTheWeb_as actor = inr browser ->
        takeScreenshot browser w = (inr data, w1) ->
        sendPicture (outlet this) (hashStr data +:+ ".png") data w1 = (inl e, w2) ->
        takeAPictureOf hashStr this actor step w = (inl e, w2)).
Proof.
  unfold takeAPictureOf, saveScreenshot, filenameFor, bind, ret, throw.
  repeat split.
  - intros e ->. reflexivity.
  - intros browser e w1 -> ->. reflexivity.
  - intros browser data e w1 w2 -> -> ->. reflexivity.
Qed.

End Failing.

Lemma takeAPictureOf_fails_with_first_failure_witness :
  let photographer := mkPhotographer (directoryOutlet "target") in
  let refusing : Photographer Scenarios.Files :=
    mkPhotographer (mkOutlet (fun _ _ files => (inl (OtherError "disk full"), files))) in
  let blind : Actor Scenarios.Files :=
    mkActor "Dave" {[ BrowseTheWeb := mkAbility BrowseTheWeb (throw (OtherError "no window")) ]} in
  takeAPictureOf Scenarios.lengthHash photographer Scenarios.carol "step 1" ∅
  = (inl (AbilityNotFound "Carol" "BrowseTheWeb"), ∅)
  /\ takeAPictureOf Scenarios.lengthHash photographer blind "step 1" ∅
     = (inl (OtherError "no window"), ∅)
  /\ takeAPictureOf Scenarios.lengthHash refusing Scenarios.bob "step 1" ∅
     = (inl (OtherError "disk full"), ∅).
Proof.
  intros photographer refusing blind.
  split; [|split].
  - apply (takeAPictureOf_fails_with_first_failure Scenarios.lengthHash photographer
             Scenarios.carol "step 1" ∅).
    reflexivity.
  - apply (takeAPictureOf_fails_with_first_failure Scenarios.lengthHash photographer
             blind "step 1" ∅)
      with (browser := mkAbility BrowseTheWeb (throw (OtherError "no window")));
      reflexivity.
  - apply (takeAPictureOf_fails_with_first_failure Scenarios.lengthHash refusing
             Scenarios.bob "step 1" ∅)
      with (browser := mkAbility BrowseTheWeb (ret "PNG-bytes")) (data := "PNG-bytes") (w1 := ∅);
      reflexivity.
Defined.

End PhotographyEdges.
